(** * gpx_street_extractor: the point collector, the street debouncer and the
      time formatter of [gpx_street_extractor.py], embedded as Rocq functions.

    Conventions of the embedding.
    - A [datetime] is the integer count of microseconds it denotes (the
      resolution of Python's [datetime]); a [timedelta] is a difference of
      two such counts.
    - A Python [float] is the rational number it denotes.  The only float
      operations of the program are [timedelta.total_seconds()], [// 60],
      [% 60] and [int()]; rounding is not modelled.
    - [get_street_name] calls a remote service.  It is a parameter of the
      debouncer: [get_street_name i lat lon] is the answer received to the
      request issued for the sample of index [i].
    - [time.sleep] and the debug prints do not change the events and are
      left out of the debouncer; [traced_loop] and [main] have them, with
      [time.sleep] as a parameter.  What [print] writes is returned as a
      list. *)

From Stdlib Require Import List String Ascii Bool ZArith QArith Qround Lia.
From Stdlib Require Import Sorted DecimalString.
Import ListNotations.

Open Scope Z_scope.

(** ** Exceptions *)

Inductive exn : Type :=
| ZeroDivisionError
| IndexError.

Inductive result (A : Type) : Type :=
| Ok (a : A)
| Raise (e : exn).

Arguments Ok {A} a.
Arguments Raise {A} e.

Definition bind {A B : Type} (c : result A) (k : A -> result B) : result B :=
  match c with
  | Ok a => k a
  | Raise e => Raise e
  end.

Notation "x <- c ;; k" := (bind c (fun x => k))
  (at level 61, c at next level, right associativity).
Notation "' pat <- c ;; k" := (bind c (fun x => match x with pat => k end))
  (at level 61, pat pattern, c at next level, right associativity).

(** [a % b] on Python integers: the remainder has the sign of [b], as
    [Z.modulo] has; a zero divisor raises. *)
Definition py_mod (a b : Z) : result Z :=
  if b =? 0 then Raise ZeroDivisionError else Ok (a mod b).

(** [l[0]]. *)
Definition index0 {A : Type} (l : list A) : result A :=
  match l with
  | [] => Raise IndexError
  | x :: _ => Ok x
  end.

(** Truth value of a Python list. *)
Definition nonempty {A : Type} (l : list A) : bool :=
  match l with
  | [] => false
  | _ :: _ => true
  end.

(** ** The parsed GPX structure (the part of gpxpy's objects the code reads) *)

Definition datetime : Type := Z.

Record GPXPoint : Type := mkPoint {
  latitude : Q;
  longitude : Q;
  time : option datetime
}.

Record GPXTrackSegment : Type := mkSegment { points : list GPXPoint }.
Record GPXTrack : Type := mkTrack { segments : list GPXTrackSegment }.
(** [route.points]; the field is renamed because [points] is taken. *)
Record GPXRoute : Type := mkRoute { rte_points : list GPXPoint }.

Record GPX : Type := mkGPX {
  tracks : list GPXTrack;
  routes : list GPXRoute;
  waypoints : list GPXPoint
}.

(** The tuples [(lat, lon, time)] built by the collector. *)
Definition sample : Type := (Q * Q * option datetime)%type.

Definition to_sample (pt : GPXPoint) : sample :=
  (latitude pt, longitude pt, time pt).

(** ** [collect_points] *)

(** A block either returns from the function or falls through with the
    current value of [points]. *)
Inductive flow : Type :=
| Return (r : list sample)
| Fallthrough (pts : list sample).

Definition collect_tracks (gpx : GPX) (points0 : list sample) : flow :=
  if nonempty (tracks gpx) then
    let points1 :=
      fold_left (fun acc track =>
        fold_left (fun acc segment =>
          fold_left (fun acc pt => acc ++ [to_sample pt])
                    (points segment) acc)
          (segments track) acc)
        (tracks gpx) points0 in
    if nonempty points1 then Return points1 else Fallthrough points1
  else Fallthrough points0.

Definition collect_routes (gpx : GPX) (points0 : list sample) : flow :=
  if nonempty (routes gpx) then
    let points1 :=
      fold_left (fun acc route =>
        fold_left (fun acc pt => acc ++ [to_sample pt])
                  (rte_points route) acc)
        (routes gpx) points0 in
    if nonempty points1 then Return points1 else Fallthrough points1
  else Fallthrough points0.

Definition collect_waypoints (gpx : GPX) (points0 : list sample) : list sample :=
  if nonempty (waypoints gpx) then
    fold_left (fun acc wpt => acc ++ [to_sample wpt]) (waypoints gpx) points0
  else points0.

Definition collect_points (gpx : GPX) : list sample :=
  match collect_tracks gpx [] with
  | Return r => r
  | Fallthrough points1 =>
      match collect_routes gpx points1 with
      | Return r => r
      | Fallthrough points2 => collect_waypoints gpx points2
      end
  end.

(** The three point sources, flattened in document order. *)
Definition track_points (gpx : GPX) : list sample :=
  flat_map (fun track =>
    flat_map (fun segment => map to_sample (points segment)) (segments track))
    (tracks gpx).

Definition route_points (gpx : GPX) : list sample :=
  flat_map (fun route => map to_sample (rte_points route)) (routes gpx).

Definition waypoint_samples (gpx : GPX) : list sample :=
  map to_sample (waypoints gpx).

(** ** [format_time_delta] *)

(** [x // y] and [x % y] on floats, for [y > 0], as the exact operations
    on rationals.  They are what Python computes on the offsets of the
    program, which are whole numbers of microseconds, and on non-negative
    floats below 2^53; on a negative float of size below about 3.6e-15
    Python's [%] rounds up to [y] itself. *)
Definition float_floordiv (x y : Q) : Q := inject_Z (Qfloor (x / y)).
Definition float_mod (x y : Q) : Q := x - y * inject_Z (Qfloor (x / y)).

(** [int(x)]: truncation towards zero. *)
Definition int_of_float (x : Q) : Z :=
  if Qle_bool 0 x then Qfloor x else Qceiling x.

(** [str(n)] for [n >= 0]. *)
Definition decimal (n : Z) : string :=
  NilZero.string_of_uint (N.to_uint (Z.to_N n)).

Fixpoint zeros (k : nat) : string :=
  match k with
  | O => EmptyString
  | S k' => String "0" (zeros k')
  end.

(** The format specification [0<width>d]: sign first, then zeros up to the
    width, then the digits; a number too wide is printed in full. *)
Definition format_0d (width : nat) (n : Z) : string :=
  let sign := if n <? 0 then "-"%string else EmptyString in
  let digits := decimal (Z.abs n) in
  (sign
   ++ zeros (width - String.length sign - String.length digits)
   ++ digits)%string.

Definition format_time_delta (seconds : Q) : string :=
  let mm := int_of_float (float_floordiv seconds 60) in
  let ss := int_of_float (float_mod seconds 60) in
  (format_0d 2 mm ++ ":" ++ format_0d 2 ss)%string.

(** ** [process_points] *)

(** The three local variables of the loop. *)
Record state : Type := mkState {
  confirmed_street : option string;
  candidate_street : option string;
  candidate_times : list Q
}.

Definition initial : state :=
  {| confirmed_street := None; candidate_street := None; candidate_times := [] |}.

(** A printed line [MM:SS street], before formatting. *)
Definition event : Type := (Q * string)%type.

Definition render (e : event) : string :=
  (format_time_delta (fst e) ++ " " ++ snd e)%string.

Definition no_data : string :=
  "No track, route, or waypoint data found in this GPX."%string.

(** [a == b] on values that are [None] or a string. *)
Definition eq_street (a b : option string) : bool :=
  match a, b with
  | Some x, Some y => String.eqb x y
  | None, None => true
  | _, _ => false
  end.

(** [timedelta.total_seconds()]. *)
Definition total_seconds (td : Z) : Q := td # 1000000.

(** The offset of a sample: datetimes are always true, so the test
    [start_time and point_time] fails only on [None]. *)
Definition time_diff (start_time point_time : option datetime) : Q :=
  match start_time, point_time with
  | Some s, Some p => total_seconds (p - s)
  | _, _ => 0%Q
  end.

(** The first timestamp that is not [None]. *)
Fixpoint first_time (pts : list sample) : option datetime :=
  match pts with
  | [] => None
  | (_, _, t) :: rest =>
      match t with
      | Some _ => t
      | None => first_time rest
      end
  end.

Section Debouncer.

Variable get_street_name : nat -> Q -> Q -> option string.
Variables downsample threshold final_threshold : Z.

(** The loop body from [if not street] on: the new state and the lines
    printed by this iteration. *)
Definition body (st : state) (street : option string) (td : Q)
  : result (state * list event) :=
  match street with
  | None => Ok (st, [])
  | Some name =>
      if String.eqb name EmptyString then Ok (st, [])
      else if eq_street street (confirmed_street st) then
        Ok ({| confirmed_street := confirmed_street st;
               candidate_street := None;
               candidate_times := [] |}, [])
      else if eq_street street (candidate_street st) then
        let times := candidate_times st ++ [td] in
        if threshold <=? Z.of_nat (List.length times) then
          confirm_offset <- index0 times ;;
          Ok ({| confirmed_street := candidate_street st;
                 candidate_street := candidate_street st;
                 candidate_times := times |},
              [(confirm_offset, name)])
        else
          Ok ({| confirmed_street := confirmed_street st;
                 candidate_street := candidate_street st;
                 candidate_times := times |}, [])
      else
        Ok ({| confirmed_street := confirmed_street st;
               candidate_street := street;
               candidate_times := [td] |}, [])
  end.

(** [for i, (lat, lon, point_time) in enumerate(points)], from index [i]
    on; [out] is what has been printed so far. *)
Fixpoint loop (start_time : option datetime) (i : nat) (pts : list sample)
         (st : state) (out : list event) : result (state * list event) :=
  match pts with
  | [] => Ok (st, out)
  | (lat, lon, point_time) :: rest =>
      r <- py_mod (Z.of_nat i) downsample ;;
      if negb (r =? 0) then loop start_time (S i) rest st out
      else
        let td := time_diff start_time point_time in
        let street := get_street_name i lat lon in
        '(st', printed) <- body st street td ;;
        loop start_time (S i) rest st' (out ++ printed)
  end.

(** The check after the loop. *)
Definition finalize (st : state) : result (list event) :=
  match candidate_street st with
  | None => Ok []
  | Some name =>
      if negb (String.eqb name EmptyString)
         && negb (eq_street (candidate_street st) (confirmed_street st))
      then
        if final_threshold <=? Z.of_nat (List.length (candidate_times st)) then
          confirm_offset <- index0 (candidate_times st) ;;
          Ok [(confirm_offset, name)]
        else Ok []
      else Ok []
  end.

(** The events printed by a run on a list of points that is not empty. *)
Definition process_events (pts : list sample) : result (list event) :=
  let start_time := first_time pts in
  '(st, out) <- loop start_time 0 pts initial [] ;;
  last <- finalize st ;;
  Ok (out ++ last).

(** Everything a call prints. *)
Definition process_points (pts : list sample) : result (list string) :=
  if negb (nonempty pts) then Ok [no_data]
  else
    evs <- process_events pts ;;
    Ok (map render evs).

(** The state and the output after the first [k] iterations of a run. *)
Definition after (pts : list sample) (k : nat) : result (state * list event) :=
  loop (first_time pts) 0 (firstn k pts) initial [].

(** *** The loop as a fold over the retained samples *)

(** One iteration on a retained sample, without the error channel. *)
Definition step (st : state) (street : option string) (td : Q)
  : state * list event :=
  match street with
  | None => (st, [])
  | Some name =>
      if String.eqb name EmptyString then (st, [])
      else if eq_street street (confirmed_street st) then
        ({| confirmed_street := confirmed_street st;
            candidate_street := None;
            candidate_times := [] |}, [])
      else if eq_street street (candidate_street st) then
        let times := candidate_times st ++ [td] in
        if threshold <=? Z.of_nat (List.length times) then
          ({| confirmed_street := candidate_street st;
              candidate_street := candidate_street st;
              candidate_times := times |},
           [(hd td (candidate_times st), name)])
        else
          ({| confirmed_street := confirmed_street st;
              candidate_street := candidate_street st;
              candidate_times := times |}, [])
      else
        ({| confirmed_street := confirmed_street st;
            candidate_street := street;
            candidate_times := [td] |}, [])
  end.

(** The label and the offset of every sample the loop does not skip. *)
Fixpoint retained (start_time : option datetime) (i : nat) (pts : list sample)
  : list (option string * Q) :=
  match pts with
  | [] => []
  | (lat, lon, point_time) :: rest =>
      if Z.of_nat i mod downsample =? 0 then
        (get_street_name i lat lon, time_diff start_time point_time)
          :: retained start_time (S i) rest
      else retained start_time (S i) rest
  end.

Definition run1 (acc : state * list event) (p : option string * Q)
  : state * list event :=
  let '(st', printed) := step (fst acc) (fst p) (snd p) in
  (st', snd acc ++ printed).

Definition run (acc : state * list event) (l : list (option string * Q))
  : state * list event :=
  fold_left run1 l acc.

End Debouncer.

(** ** [get_street_name] *)

(** A JSON object whose members are strings, as the list of its members. *)
Definition dict : Type := list (string * string).

(** [d.get(key)]. *)
Fixpoint dict_get (d : dict) (key : string) : option string :=
  match d with
  | [] => None
  | (k, v) :: rest => if String.eqb k key then Some v else dict_get rest key
  end.

(** Truth value of a value that is [None] or a string. *)
Definition truthy (v : option string) : bool :=
  match v with
  | None => false
  | Some s => negb (String.eqb s EmptyString)
  end.

(** [a or b]. *)
Definition py_or (a b : option string) : option string :=
  if truthy a then a else b.

(** What [requests.get] gives: it raises a [RequestException], or returns a
    response with a status code whose JSON body has, or has not, an
    [address] member. *)
Inductive reply : Type :=
| RequestException
| Response (status_code : Z) (address : option dict).

(** The function takes the replies of the service as a parameter:
    [requests_get i lat lon] is the reply to the request for sample [i]. *)
Definition get_street_name (requests_get : nat -> Q -> Q -> reply)
           (i : nat) (lat lon : Q) : option string :=
  match requests_get i lat lon with
  | RequestException => None
  | Response status_code data_address =>
      if status_code =? 200 then
        let address := match data_address with Some a => a | None => [] end in
        py_or (py_or (dict_get address "road") (dict_get address "footway"))
              (dict_get address "pedestrian")
      else None
  end.

(** ** [debug_gpx_contents] *)

(** [enumerate(l)]. *)
Definition enumerate {A : Type} (l : list A) : list (nat * A) :=
  combine (seq 0 (List.length l)) l.

Definition str_len {A : Type} (l : list A) : string :=
  decimal (Z.of_nat (List.length l)).

Definition str_index (i : nat) : string := decimal (Z.of_nat i).

(** The lines the function prints. *)
Definition debug_gpx_contents (gpx : GPX) (debug_mode : bool) : list string :=
  if negb debug_mode then []
  else
    [("DEBUG: Number of tracks = " ++ str_len (tracks gpx))%string]
    ++ flat_map (fun it : nat * GPXTrack =>
         ("DEBUG:   Track " ++ str_index (fst it) ++ " has "
          ++ str_len (segments (snd it)) ++ " segment(s).")%string
         :: map (fun js : nat * GPXTrackSegment =>
              ("DEBUG:     Segment " ++ str_index (fst js) ++ " has "
               ++ str_len (points (snd js)) ++ " point(s).")%string)
              (enumerate (segments (snd it))))
         (enumerate (tracks gpx))
    ++ [("DEBUG: Number of routes = " ++ str_len (routes gpx))%string]
    ++ map (fun ir : nat * GPXRoute =>
         ("DEBUG:   Route " ++ str_index (fst ir) ++ " has "
          ++ str_len (rte_points (snd ir)) ++ " point(s).")%string)
         (enumerate (routes gpx))
    ++ [("DEBUG: Number of waypoints = " ++ str_len (waypoints gpx))%string].

(** ** [process_points] and [main] with everything they print *)

(** What ends a run: an exception of the code's own operations, or the
    one [time.sleep] raises. *)
Inductive failure : Type :=
| Builtin (e : exn)
| ValueError
| OverflowError.

(** [str(n)] for an integer. *)
Definition str_int (n : Z) : string := NilZero.string_of_int (Z.to_int n).

(** [str(street)] for a value that is [None] or a string. *)
Definition str_street (street : option string) : string :=
  match street with
  | None => "None"%string
  | Some s => s
  end.

Section Traced.

Variable requests_get : nat -> Q -> Q -> reply.
(** [str(e)] for the exception the request for sample [i] raised. *)
Variable exception_text : nat -> Q -> Q -> string.
(** [time.sleep]: [None] when the call returns, else what it raises. *)
Variable sleep : Q -> option failure.
(** The format specification [.6f]. *)
Variable fixed6 : Q -> string.
Variable downsample : Z.
Variable request_delay : Q.
Variables threshold final_threshold : Z.
Variable debug_mode : bool.

(** The warning [get_street_name] prints in debug mode. *)
Definition get_street_name_warning (i : nat) (lat lon : Q) : list string :=
  match requests_get i lat lon with
  | RequestException =>
      if debug_mode then
        [("WARNING: Nominatim request failed: " ++ exception_text i lat lon)%string]
      else []
  | Response status_code _ =>
      if status_code =? 200 then []
      else if debug_mode then
        [("WARNING: Nominatim returned status " ++ str_int status_code)%string]
      else []
  end.

(** The line [debug_print] writes for a processed point. *)
Definition debug_point (i : nat) (lat lon : Q) (street : option string)
  : list string :=
  if debug_mode then
    [("DEBUG: i=" ++ str_index i ++ ", lat=" ++ fixed6 lat
      ++ ", lon=" ++ fixed6 lon ++ ", street=" ++ str_street street)%string]
  else [].

(** The loop of [process_points] with its pause and its diagnostics; [out]
    is everything printed so far.  The result is what has been printed,
    and the state the loop ends in or the exception that ends it. *)
Fixpoint traced_loop (start_time : option datetime) (i : nat) (pts : list sample)
         (st : state) (out : list string) : list string * (state + failure) :=
  match pts with
  | [] => (out, inl st)
  | (lat, lon, point_time) :: rest =>
      match py_mod (Z.of_nat i) downsample with
      | Raise e => (out, inr (Builtin e))
      | Ok r =>
          if negb (r =? 0) then traced_loop start_time (S i) rest st out
          else
            match sleep request_delay with
            | Some f => (out, inr f)
            | None =>
                let td := time_diff start_time point_time in
                let street := get_street_name requests_get i lat lon in
                let out1 := out ++ get_street_name_warning i lat lon
                                ++ debug_point i lat lon street in
                match body threshold st street td with
                | Raise e => (out1, inr (Builtin e))
                | Ok (st', printed) =>
                    traced_loop start_time (S i) rest st' (out1 ++ map render printed)
                end
            end
      end
  end.

(** Everything a call of [process_points] prints, and the exception that
    ends it, if any. *)
Definition traced_process_points (pts : list sample)
  : list string * option failure :=
  if negb (nonempty pts) then ([no_data], None)
  else
    match traced_loop (first_time pts) 0 pts initial [] with
    | (out, inr f) => (out, Some f)
    | (out, inl st) =>
        match finalize final_threshold st with
        | Raise e => (out, Some (Builtin e))
        | Ok last => (out ++ map render last, None)
        end
    end.

End Traced.

(** The parsed command line. *)
Record Namespace : Type := mkNamespace {
  args_downsample : Z;
  args_request_delay : Q;
  args_threshold : Z;
  args_final_threshold : Z;
  args_debug : bool
}.

Definition main_no_data : string :=
  "No track/route/waypoint data found in this GPX."%string.

(** [main] from the parsed command line and the parsed file on:
    everything it prints, and the exception that ends it, if any. *)
Definition main (requests_get : nat -> Q -> Q -> reply)
           (exception_text : nat -> Q -> Q -> string)
           (sleep : Q -> option failure) (fixed6 : Q -> string)
           (args : Namespace) (gpx : GPX) : list string * option failure :=
  let report := debug_gpx_contents gpx (args_debug args) in
  let points := collect_points gpx in
  if negb (nonempty points) then (report ++ [main_no_data], None)
  else
    let '(lines, raised) :=
      traced_process_points requests_get exception_text sleep fixed6
        (args_downsample args) (args_request_delay args)
        (args_threshold args) (args_final_threshold args) (args_debug args)
        points in
    (report ++ lines, raised).

(** ** Predicates used in the statements *)

(** Some track holds a point; some route holds a point. *)
Definition any_track_point (gpx : GPX) : Prop :=
  exists track segment pt,
    In track (tracks gpx) /\ In segment (segments track) /\ In pt (points segment).

Definition any_route_point (gpx : GPX) : Prop :=
  exists route pt, In route (routes gpx) /\ In pt (rte_points route).

(** A number printed in decimal, padded with zeros on the left to two
    characters. *)
Definition two_digits (n : Z) : string :=
  (zeros (2 - String.length (decimal n)) ++ decimal n)%string.

(** What holds of the three variables in every state a run goes through:
    no name is the empty string, and the hit list is empty exactly when
    there is no candidate. *)
Definition wf (st : state) : Prop :=
  confirmed_street st <> Some EmptyString /\
  candidate_street st <> Some EmptyString /\
  (candidate_street st = None -> candidate_times st = []) /\
  (candidate_times st = [] -> candidate_street st = None).

Definition named (out : list event) : Prop :=
  Forall (fun e => snd e <> EmptyString) out.

Definition good (acc : state * list event) : Prop :=
  wf (fst acc) /\ named (snd acc).

(** The hit list and the printed offsets are non-decreasing, and no printed
    offset exceeds a hit of the candidate. *)
Definition ordered (acc : state * list event) : Prop :=
  StronglySorted Qle (candidate_times (fst acc)) /\
  StronglySorted Qle (map fst (snd acc)) /\
  Forall (fun e => Forall (Qle (fst e)) (candidate_times (fst acc))) (snd acc).

(** Every hit and every printed offset is at most [x]. *)
Definition below (acc : state * list event) (x : Q) : Prop :=
  Forall (fun t => (t <= x)%Q) (candidate_times (fst acc)) /\
  Forall (fun e => (fst e <= x)%Q) (snd acc).

(** A geocoder that answers the requests with the labels of a list, in
    order of sample index. *)
Definition answers (labels : list (option string)) : nat -> Q -> Q -> option string :=
  fun i _ _ => nth i labels None.

(** A sample at the origin, [s] seconds after the epoch. *)
Definition at_second (s : Z) : sample := (0%Q, 0%Q, Some (s * 1000000)).

(** A sample without a timestamp. *)
Definition untimed : sample := (0%Q, 0%Q, None).

(** No two neighbours of the list are equal. *)
Fixpoint no_repeat (l : list string) : Prop :=
  match l with
  | [] => True
  | a :: rest =>
      match rest with
      | [] => True
      | b :: _ => a <> b /\ no_repeat rest
      end
  end.

(** The name of the last printed line, if any. *)
Definition last_street (out : list event) : option string :=
  last (map (fun e : event => Some (snd e)) out) None.

(** ** Basic facts *)

Lemma eq_street_true (a b : option string) : eq_street a b = true -> a = b.
Proof.
  destruct a as [x|], b as [y|]; simpl; try discriminate; auto.
  intros H. apply String.eqb_eq in H. now subst.
Qed.

Lemma eq_street_false (a b : option string) : eq_street a b = false -> a <> b.
Proof.
  destruct a as [x|], b as [y|]; simpl; try discriminate.
  intros H E. injection E as ->. now rewrite String.eqb_refl in H.
Qed.

Lemma eq_street_refl (a : option string) : eq_street a a = true.
Proof. destruct a; simpl; auto using String.eqb_refl. Qed.

Lemma eq_street_neq (a b : option string) : a <> b -> eq_street a b = false.
Proof.
  intros H. destruct (eq_street a b) eqn:E; auto.
  apply eq_street_true in E. contradiction.
Qed.

Lemma index0_snoc {A : Type} (l : list A) (x : A) :
  index0 (l ++ [x]) = Ok (hd x l).
Proof. destruct l; reflexivity. Qed.

Lemma snoc_length {A : Type} (l : list A) (x : A) :
  Z.of_nat (List.length (l ++ [x])) = Z.of_nat (List.length l) + 1.
Proof. rewrite length_app. simpl. lia. Qed.

Section DebouncerFacts.

Variable get_street_name : nat -> Q -> Q -> option string.
Variables downsample threshold final_threshold : Z.

Lemma body_step (st : state) (street : option string) (td : Q) :
  body threshold st street td = Ok (step threshold st street td).
Proof.
  unfold body, step. destruct street as [name|]; [|reflexivity].
  destruct (String.eqb name EmptyString); [reflexivity|].
  destruct (eq_street (Some name) (confirmed_street st)); [reflexivity|].
  destruct (eq_street (Some name) (candidate_street st)); [|reflexivity].
  cbv zeta. destruct (threshold <=? _); [|reflexivity].
  now rewrite index0_snoc.
Qed.

Lemma run_cons (acc : state * list event) p l :
  run threshold acc (p :: l) = run threshold (run1 threshold acc p) l.
Proof. reflexivity. Qed.

Lemma run_app (acc : state * list event) l1 l2 :
  run threshold acc (l1 ++ l2) = run threshold (run threshold acc l1) l2.
Proof. unfold run. apply fold_left_app. Qed.

Lemma loop_run (start : option datetime) (pts : list sample) :
  downsample <> 0 ->
  forall i st out,
    loop get_street_name downsample threshold start i pts st out
    = Ok (run threshold (st, out) (retained get_street_name downsample start i pts)).
Proof.
  intros Hd. induction pts as [|[[lat lon] t] rest IH]; intros i st out.
  - reflexivity.
  - cbn [loop retained]. unfold py_mod.
    destruct (downsample =? 0) eqn:E; [apply Z.eqb_eq in E; contradiction|].
    cbn [bind]. destruct (Z.of_nat i mod downsample =? 0); cbn [negb].
    + rewrite body_step, run_cons. unfold run1. cbn [fst snd bind].
      destruct (step threshold st (get_street_name i lat lon) (time_diff start t))
        as [st' printed].
      apply IH.
    + apply IH.
Qed.

Lemma loop_zero_stride (start : option datetime) i p rest st out :
  loop get_street_name 0 threshold start i (p :: rest) st out
  = Raise ZeroDivisionError.
Proof. destruct p as [[lat lon] t]. reflexivity. Qed.

Lemma retained_app (start : option datetime) l1 l2 i :
  retained get_street_name downsample start i (l1 ++ l2)
  = retained get_street_name downsample start i l1
    ++ retained get_street_name downsample start (i + List.length l1) l2.
Proof.
  revert i. induction l1 as [|[[lat lon] t] l1 IH]; intros i; simpl.
  - now rewrite Nat.add_0_r.
  - rewrite IH. replace (S i + List.length l1)%nat with (i + S (List.length l1))%nat by lia.
    now destruct (Z.of_nat i mod downsample =? 0).
Qed.

(** An invariant of a single iteration is an invariant of the run. *)
Lemma run_invariant (P : state * list event -> Prop) :
  (forall acc p, P acc -> P (run1 threshold acc p)) ->
  forall l acc, P acc -> P (run threshold acc l).
Proof.
  intros Hstep. induction l as [|p l IH]; intros acc H; [exact H|].
  rewrite run_cons. apply IH, Hstep, H.
Qed.

End DebouncerFacts.

(** ** The cases of one iteration *)

Section StepCases.

Variable threshold : Z.

(** The four branches of the loop body, with the conditions under which
    each is taken. *)
Lemma step_cases (st : state) (street : option string) (td : Q) :
  ((street = None \/ street = Some EmptyString)
   /\ step threshold st street td = (st, []))
  \/ (exists name, street = Some name /\ name <> EmptyString /\
        confirmed_street st = Some name /\
        step threshold st street td
        = ({| confirmed_street := confirmed_street st;
              candidate_street := None;
              candidate_times := [] |}, []))
  \/ (exists name, street = Some name /\ name <> EmptyString /\
        confirmed_street st <> Some name /\
        candidate_street st = Some name /\
        threshold <= Z.of_nat (List.length (candidate_times st)) + 1 /\
        step threshold st street td
        = ({| confirmed_street := Some name;
              candidate_street := Some name;
              candidate_times := candidate_times st ++ [td] |},
           [(hd td (candidate_times st), name)]))
  \/ (exists name, street = Some name /\ name <> EmptyString /\
        confirmed_street st <> Some name /\
        candidate_street st = Some name /\
        Z.of_nat (List.length (candidate_times st)) + 1 < threshold /\
        step threshold st street td
        = ({| confirmed_street := confirmed_street st;
              candidate_street := Some name;
              candidate_times := candidate_times st ++ [td] |}, []))
  \/ (exists name, street = Some name /\ name <> EmptyString /\
        confirmed_street st <> Some name /\
        candidate_street st <> Some name /\
        step threshold st street td
        = ({| confirmed_street := confirmed_street st;
              candidate_street := Some name;
              candidate_times := [td] |}, [])).
Proof.
  unfold step. destruct street as [name|]; [|left; auto].
  destruct (String.eqb name EmptyString) eqn:En.
  { apply String.eqb_eq in En. subst. left; auto. }
  apply String.eqb_neq in En.
  destruct (eq_street (Some name) (confirmed_street st)) eqn:Ec.
  { apply eq_street_true in Ec. right; left. exists name. auto. }
  apply eq_street_false in Ec.
  assert (Hc : confirmed_street st <> Some name) by congruence.
  destruct (eq_street (Some name) (candidate_street st)) eqn:Ek.
  - apply eq_street_true in Ek. symmetry in Ek. cbv zeta.
    rewrite snoc_length.
    destruct (threshold <=? Z.of_nat (List.length (candidate_times st)) + 1) eqn:Et.
    + apply Z.leb_le in Et. right; right; left. exists name.
      rewrite Ek. auto 10.
    + apply Z.leb_gt in Et. right; right; right; left. exists name.
      rewrite Ek. auto 10.
  - apply eq_street_false in Ek.
    right; right; right; right. exists name.
    repeat split; auto; congruence.
Qed.

Lemma run1_good (acc : state * list event) (p : option string * Q) :
  good acc -> good (run1 threshold acc p).
Proof.
  destruct acc as [st out], p as [street td].
  unfold good, run1, wf, named. cbn [fst snd].
  intros [(Hc & Hk & Hn & He) Hout].
  destruct (step_cases st street td)
    as [[_ E]|[(n & _ & Hne & _ & E)|[(n & _ & Hne & _ & Hk' & _ & E)
       |[(n & _ & Hne & _ & Hk' & _ & E)|(n & _ & Hne & _ & _ & E)]]]];
    rewrite E; cbn [fst snd confirmed_street candidate_street candidate_times].
  all: rewrite ?app_nil_r; repeat split; auto; try congruence; try discriminate.
  all: try (intros H; now destruct (candidate_times st)).
  apply Forall_app. split; auto.
Qed.

Lemma initial_good : good (initial, []).
Proof.
  unfold good, wf, named. simpl. repeat split; auto; discriminate.
Qed.

Lemma run_good (l : list (option string * Q)) :
  good (run threshold (initial, []) l).
Proof. apply run_invariant; [apply run1_good | apply initial_good]. Qed.

End StepCases.

(** ** Every state of a run is well formed *)

Section Reachable.

Variable get_street_name : nat -> Q -> Q -> option string.
Variables downsample threshold final_threshold : Z.

Lemma loop_good (start : option datetime) (pts : list sample) i st out :
  loop get_street_name downsample threshold start i pts initial [] = Ok (st, out) ->
  good (st, out).
Proof.
  destruct (Z.eq_dec downsample 0) as [->|Hd].
  - destruct pts as [|p rest].
    + simpl. intros E. injection E as <- <-. apply initial_good.
    + rewrite loop_zero_stride. discriminate.
  - rewrite loop_run by assumption. intros E. injection E as E.
    rewrite <- E. apply run_good.
Qed.

Lemma after_good (pts : list sample) k st out :
  after get_street_name downsample threshold pts k = Ok (st, out) ->
  good (st, out).
Proof. apply loop_good. Qed.

(** The check after the loop never raises on a well-formed state. *)
Lemma finalize_wf (st : state) :
  wf st ->
  finalize final_threshold st
  = Ok (match candidate_street st with
        | None => []
        | Some name =>
            if eq_street (candidate_street st) (confirmed_street st) then []
            else if final_threshold <=? Z.of_nat (List.length (candidate_times st))
                 then [(hd 0%Q (candidate_times st), name)]
                 else []
        end).
Proof.
  intros (_ & Hk & _ & He). unfold finalize.
  destruct (candidate_street st) as [name|] eqn:Ek; [|reflexivity].
  destruct (String.eqb name EmptyString) eqn:En.
  { apply String.eqb_eq in En. subst. contradiction. }
  cbn [negb andb].
  destruct (eq_street (Some name) (confirmed_street st)); cbn [negb]; [reflexivity|].
  destruct (final_threshold <=? _); [|reflexivity].
  destruct (candidate_times st) as [|t0 rest]; [|reflexivity].
  discriminate (He eq_refl).
Qed.

Lemma finalize_named (st : state) (last : list event) :
  finalize final_threshold st = Ok last -> named last.
Proof.
  unfold finalize, named. destruct (candidate_street st) as [name|].
  - destruct (String.eqb name EmptyString) eqn:En; cbn [negb andb].
    + intros E. injection E as <-. constructor.
    + apply String.eqb_neq in En.
      destruct (negb _); [|intros E; injection E as <-; constructor].
      destruct (_ <=? _); [|intros E; injection E as <-; constructor].
      destruct (candidate_times st); simpl; [discriminate|].
      intros E. injection E as <-. constructor; auto.
  - intros E. injection E as <-. constructor.
Qed.

End Reachable.

(** ** The per-sample step *)

(** C8: on a retained sample whose label is null the loop body leaves the
    confirmed street, the candidate and its hit list as they are and prints
    nothing; the loop goes on as if the sample were absent, and a run over
    a label stream equals the run over the stream without its nulls. *)
Theorem null_label_is_skipped :
  (forall threshold st td, body threshold st None td = Ok (st, [])) /\
  (forall get_street_name downsample threshold start i lat lon t rest st out,
      downsample <> 0 ->
      Z.of_nat i mod downsample = 0 ->
      get_street_name i lat lon = None ->
      loop get_street_name downsample threshold start i ((lat, lon, t) :: rest) st out
      = loop get_street_name downsample threshold start (S i) rest st out) /\
  (forall threshold acc l,
      run threshold acc l
      = run threshold acc
          (filter (fun p => match fst p with Some _ => true | None => false end) l)).
Proof.
  split; [reflexivity|split].
  - intros gsn d th start i lat lon t rest st out Hd Hm Hn.
    cbn [loop]. unfold py_mod.
    destruct (d =? 0) eqn:E; [apply Z.eqb_eq in E; contradiction|].
    cbn [bind]. rewrite Hm, Hn. cbn [Z.eqb negb body bind].
    now rewrite app_nil_r.
  - intros th acc l. revert acc.
    induction l as [|[street td] l IH]; intros acc; [reflexivity|].
    cbn [filter fst]. destruct street as [name|].
    + rewrite !run_cons. apply IH.
    + rewrite run_cons. unfold run1. cbn [fst snd step].
      rewrite app_nil_r. destruct acc as [st out]. apply IH.
Qed.

Lemma null_label_is_skipped_witness :
  loop (answers [None; Some "Elm"%string]) 1 3 None 0
       [at_second 0; at_second 5] initial []
  = loop (answers [None; Some "Elm"%string]) 1 3 None 1
         [at_second 5] initial [].
Proof.
  apply (proj1 (proj2 null_label_is_skipped)); [lia | reflexivity | reflexivity].
Defined.

(** C10: the empty string is skipped like a null label; it is never the
    candidate, never the confirmed street and never printed, and the check
    after the loop prints nothing for a candidate that is the empty string. *)
Theorem empty_label_is_skipped :
  (forall threshold st td, body threshold st (Some EmptyString) td = Ok (st, [])) /\
  (forall get_street_name downsample threshold pts k st out,
      after get_street_name downsample threshold pts k = Ok (st, out) ->
      candidate_street st <> Some EmptyString /\
      confirmed_street st <> Some EmptyString /\
      Forall (fun e => snd e <> EmptyString) out) /\
  (forall get_street_name downsample threshold final_threshold pts evs,
      process_events get_street_name downsample threshold final_threshold pts = Ok evs ->
      Forall (fun e => snd e <> EmptyString) evs) /\
  (forall final_threshold st,
      candidate_street st = Some EmptyString ->
      finalize final_threshold st = Ok []).
Proof.
  split; [reflexivity|split; [|split]].
  - intros gsn d th pts k st out H. apply after_good in H.
    destruct H as [(Hc & Hk & _) Hout]. auto.
  - intros gsn d th ft pts evs. unfold process_events.
    destruct (loop gsn d th (first_time pts) 0 pts initial []) as [[st out]|e] eqn:El;
      [|discriminate].
    cbn [bind]. apply loop_good in El. destruct El as [_ Hout].
    destruct (finalize ft st) as [last|e] eqn:Ef; [|discriminate].
    cbn [bind]. intros E. injection E as <-.
    apply Forall_app. split; [exact Hout|].
    eapply finalize_named; eauto.
  - intros ft st H. unfold finalize. rewrite H. reflexivity.
Qed.

Lemma empty_label_is_skipped_witness :
  Forall (fun e : event => snd e <> EmptyString)
         [(total_seconds 10000000, "Elm"%string)].
Proof.
  apply (proj1 (proj2 (proj2 empty_label_is_skipped))
           (answers [Some EmptyString; Some "Elm"; Some EmptyString; Some "Elm"]%string)
           1 2 2 [at_second 0; at_second 10; at_second 20; at_second 30]).
  reflexivity.
Defined.

(** *** The branches as rewriting rules *)

Section StepRules.

Variable threshold : Z.

Lemma step_empty (st : state) (td : Q) :
  step threshold st (Some EmptyString) td = (st, []).
Proof. reflexivity. Qed.

Lemma step_clear (st : state) (name : string) (td : Q) :
  name <> EmptyString ->
  confirmed_street st = Some name ->
  step threshold st (Some name) td
  = ({| confirmed_street := Some name;
        candidate_street := None;
        candidate_times := [] |}, []).
Proof.
  intros Hn Hc. unfold step.
  rewrite (proj2 (String.eqb_neq _ _) Hn), Hc, eq_street_refl. reflexivity.
Qed.

Lemma step_replace (st : state) (name : string) (td : Q) :
  name <> EmptyString ->
  confirmed_street st <> Some name ->
  candidate_street st <> Some name ->
  step threshold st (Some name) td
  = ({| confirmed_street := confirmed_street st;
        candidate_street := Some name;
        candidate_times := [td] |}, []).
Proof.
  intros Hn Hc Hk. unfold step.
  rewrite (proj2 (String.eqb_neq _ _) Hn).
  rewrite !eq_street_neq by congruence. reflexivity.
Qed.

Lemma step_count (st : state) (name : string) (td : Q) :
  name <> EmptyString ->
  confirmed_street st <> Some name ->
  candidate_street st = Some name ->
  Z.of_nat (List.length (candidate_times st)) + 1 < threshold ->
  step threshold st (Some name) td
  = ({| confirmed_street := confirmed_street st;
        candidate_street := Some name;
        candidate_times := candidate_times st ++ [td] |}, []).
Proof.
  intros Hn Hc Hk Hl. unfold step.
  rewrite (proj2 (String.eqb_neq _ _) Hn).
  rewrite eq_street_neq by congruence.
  rewrite Hk, eq_street_refl. cbv zeta. rewrite snoc_length.
  now rewrite (proj2 (Z.leb_gt _ _) Hl).
Qed.

Lemma step_confirm (st : state) (name : string) (td : Q) :
  name <> EmptyString ->
  confirmed_street st <> Some name ->
  candidate_street st = Some name ->
  threshold <= Z.of_nat (List.length (candidate_times st)) + 1 ->
  step threshold st (Some name) td
  = ({| confirmed_street := Some name;
        candidate_street := Some name;
        candidate_times := candidate_times st ++ [td] |},
     [(hd td (candidate_times st), name)]).
Proof.
  intros Hn Hc Hk Hl. unfold step.
  rewrite (proj2 (String.eqb_neq _ _) Hn).
  rewrite eq_street_neq by congruence.
  rewrite Hk, eq_street_refl. cbv zeta. rewrite snoc_length.
  now rewrite (proj2 (Z.leb_le _ _) Hl).
Qed.

End StepRules.

(** C1 (as the code has it): on a retained sample whose label [name] is not
    empty, is the candidate's name and is not the confirmed street, the body
    appends the offset to the hit list; when the list then has [threshold]
    elements or more it prints exactly one line, whose offset is the first
    element of the list, and sets the confirmed street to [name]; otherwise
    it prints nothing and keeps the confirmed street.  In both cases the
    candidate stays: it keeps its name and the extended hit list. *)
Theorem matching_label_counts_and_confirms
        (threshold : Z) (st : state) (name : string) (td : Q) :
  name <> EmptyString ->
  candidate_street st = Some name ->
  confirmed_street st <> Some name ->
  exists st' printed,
    body threshold st (Some name) td = Ok (st', printed) /\
    candidate_times st' = candidate_times st ++ [td] /\
    candidate_street st' = Some name /\
    (threshold <= Z.of_nat (List.length (candidate_times st')) ->
     exists first,
       hd_error (candidate_times st') = Some first /\
       (forall t0 rest, candidate_times st = t0 :: rest -> first = t0) /\
       printed = [(first, name)] /\
       confirmed_street st' = Some name) /\
    (Z.of_nat (List.length (candidate_times st')) < threshold ->
     printed = [] /\ confirmed_street st' = confirmed_street st).
Proof.
  intros Hn Hk Hc. rewrite body_step.
  destruct (Z_le_gt_dec threshold (Z.of_nat (List.length (candidate_times st)) + 1))
    as [Hl|Hl].
  - rewrite step_confirm by assumption.
    eexists; eexists; split; [reflexivity|].
    cbn [candidate_times candidate_street confirmed_street].
    repeat split; auto.
    + intros _. exists (hd td (candidate_times st)). repeat split.
      * now destruct (candidate_times st).
      * intros t0 rest E. now rewrite E.
    + rewrite snoc_length in H. lia.
    + rewrite snoc_length in H. lia.
  - rewrite step_count by (assumption || lia).
    eexists; eexists; split; [reflexivity|].
    cbn [candidate_times candidate_street confirmed_street].
    repeat split; auto.
    intros H. rewrite snoc_length in H. lia.
Qed.

Lemma matching_label_counts_and_confirms_witness :
  exists st' printed,
    body 2 {| confirmed_street := None;
              candidate_street := Some "Elm"%string;
              candidate_times := [0%Q] |} (Some "Elm"%string) 10%Q
    = Ok (st', printed) /\
    candidate_times st' = [0%Q] ++ [10%Q] /\
    candidate_street st' = Some "Elm"%string /\
    (2 <= Z.of_nat (List.length (candidate_times st')) ->
     exists first,
       hd_error (candidate_times st') = Some first /\
       (forall t0 rest, [0%Q] = t0 :: rest -> first = t0) /\
       printed = [(first, "Elm"%string)] /\
       confirmed_street st' = Some "Elm"%string) /\
    (Z.of_nat (List.length (candidate_times st')) < 2 ->
     printed = [] /\ confirmed_street st' = None).
Proof.
  apply (matching_label_counts_and_confirms 2
           {| confirmed_street := None;
              candidate_street := Some "Elm"%string;
              candidate_times := [0%Q] |} "Elm"%string 10%Q).
  - discriminate.
  - reflexivity.
  - discriminate.
Defined.

(** C1 as stated fails: after the confirming iteration the candidate is
    still there.  Two samples labelled Elm with a threshold of 2 confirm Elm
    on the second one, and the state after it has Elm as candidate. *)
Lemma confirming_step_keeps_candidate :
  exists st,
    after (answers [Some "Elm"; Some "Elm"]%string) 1 2
          [at_second 0; at_second 10] 2
    = Ok (st, [(total_seconds 0, "Elm"%string)]) /\
    confirmed_street st = Some "Elm"%string /\
    candidate_street st <> None.
Proof.
  eexists. split; [reflexivity|]. split; [reflexivity|discriminate].
Qed.

(** ** The check after the loop *)

(** C3: in the state the loop ends in, a candidate whose name is not the
    confirmed street and whose hit list has [final_threshold] elements or
    more makes the final check print exactly one line, the first hit and the
    candidate's name; with fewer hits, without a candidate, or with the
    candidate equal to the confirmed street, nothing is printed.  The run
    prints the lines of the loop followed by those of the final check. *)
Theorem final_check_confirms_trailing_candidate
        (get_street_name : nat -> Q -> Q -> option string)
        (downsample threshold final_threshold : Z)
        (pts : list sample) (st : state) (out : list event) :
  loop get_street_name downsample threshold (first_time pts) 0 pts initial []
  = Ok (st, out) ->
  (forall name,
      candidate_street st = Some name ->
      confirmed_street st <> Some name ->
      final_threshold <= Z.of_nat (List.length (candidate_times st)) ->
      exists t0 rest,
        candidate_times st = t0 :: rest /\
        finalize final_threshold st = Ok [(t0, name)] /\
        process_events get_street_name downsample threshold final_threshold pts
        = Ok (out ++ [(t0, name)])) /\
  (Z.of_nat (List.length (candidate_times st)) < final_threshold ->
   finalize final_threshold st = Ok [] /\
   process_events get_street_name downsample threshold final_threshold pts = Ok out) /\
  (candidate_street st = None \/ candidate_street st = confirmed_street st ->
   finalize final_threshold st = Ok [] /\
   process_events get_street_name downsample threshold final_threshold pts = Ok out).
Proof.
  intros Hl. pose proof (loop_good _ _ _ _ _ _ _ _ Hl) as [Hwf _].
  cbn [fst] in Hwf.
  assert (Hp : forall last, finalize final_threshold st = Ok last ->
            process_events get_street_name downsample threshold final_threshold pts
            = Ok (out ++ last)).
  { intros last E. unfold process_events. rewrite Hl. cbn [bind]. now rewrite E. }
  pose proof (finalize_wf final_threshold st Hwf) as Hf.
  split; [|split].
  - intros name Hk Hc Hn. rewrite Hk in Hf.
    rewrite eq_street_neq in Hf by congruence.
    rewrite (proj2 (Z.leb_le _ _) Hn) in Hf.
    destruct Hwf as (_ & _ & _ & He).
    destruct (candidate_times st) as [|t0 rest] eqn:Et.
    + specialize (He eq_refl). congruence.
    + exists t0, rest. cbn [hd] in Hf. auto.
  - intros Hn. rewrite (proj2 (Z.leb_gt _ _) Hn) in Hf.
    assert (E : finalize final_threshold st = Ok []).
    { rewrite Hf. destruct (candidate_street st); [|reflexivity].
      now destruct (eq_street _ _). }
    split; [exact E|]. rewrite (Hp _ E). now rewrite app_nil_r.
  - intros H.
    assert (E : finalize final_threshold st = Ok []).
    { rewrite Hf. destruct H as [H|H].
      - now rewrite H.
      - rewrite <- H, eq_street_refl. now destruct (candidate_street st). }
    split; [exact E|]. rewrite (Hp _ E). now rewrite app_nil_r.
Qed.

Lemma final_check_confirms_trailing_candidate_witness :
  exists t0 rest,
    [total_seconds 30000000; total_seconds 40000000] = t0 :: rest /\
    finalize 2 {| confirmed_street := Some "Ash"%string;
                  candidate_street := Some "Birch"%string;
                  candidate_times := [total_seconds 30000000; total_seconds 40000000] |}
    = Ok [(t0, "Birch"%string)] /\
    process_events
      (answers [Some "Ash"; Some "Ash"; Some "Ash"; Some "Birch"; Some "Birch"]%string)
      1 3 2 [at_second 0; at_second 10; at_second 20; at_second 30; at_second 40]
    = Ok ([(total_seconds 0, "Ash"%string)] ++ [(t0, "Birch"%string)]).
Proof.
  apply (proj1 (final_check_confirms_trailing_candidate
                  (answers [Some "Ash"; Some "Ash"; Some "Ash"; Some "Birch"; Some "Birch"]%string)
                  1 3 2 [at_second 0; at_second 10; at_second 20; at_second 30; at_second 40]
                  {| confirmed_street := Some "Ash"%string;
                     candidate_street := Some "Birch"%string;
                     candidate_times := [total_seconds 30000000; total_seconds 40000000] |}
                  [(total_seconds 0, "Ash"%string)] eq_refl) "Birch"%string).
  - reflexivity.
  - discriminate.
  - simpl. lia.
Defined.

(** The two end-of-sequence examples of the specification: a trailing pair
    of Birch labels is confirmed by the final check, a single one is not. *)
Example trailing_short_segment :
  process_events
    (answers [Some "Ash"; Some "Ash"; Some "Ash"; Some "Birch"; Some "Birch"]%string)
    1 3 2 [at_second 0; at_second 10; at_second 20; at_second 30; at_second 40]
  = Ok [(total_seconds 0, "Ash"%string); (total_seconds 30000000, "Birch"%string)].
Proof. reflexivity. Qed.

Example below_final_threshold :
  process_events
    (answers [Some "Ash"; Some "Ash"; Some "Ash"; Some "Birch"]%string)
    1 3 2 [at_second 0; at_second 10; at_second 20; at_second 30]
  = Ok [(total_seconds 0, "Ash"%string)].
Proof. reflexivity. Qed.

(** ** Label sequences *)

Ltac side :=
  cbn [confirmed_street candidate_street candidate_times List.length app];
  first [assumption | discriminate | congruence | lia | reflexivity].

Lemma run_step (threshold : Z) (st st' : state) (out printed : list event)
      (street : option string) (td : Q) (l : list (option string * Q)) :
  step threshold st street td = (st', printed) ->
  run threshold (st, out) ((street, td) :: l) = run threshold (st', out ++ printed) l.
Proof. intros E. rewrite run_cons. unfold run1. cbn [fst snd]. now rewrite E. Qed.

Ltac take rule :=
  erewrite run_step by (rewrite rule by side; reflexivity);
  cbn [confirmed_street candidate_street candidate_times app hd].

(** C2 (as the code has it): with the confirmed street A and a threshold of
    3 or more, the retained labels B, B, A print nothing: the third label
    clears the candidate before it has enough hits, and the final check
    finds no candidate. *)
Theorem return_to_confirmed_clears_candidate
        (get_street_name : nat -> Q -> Q -> option string)
        (downsample threshold final_threshold : Z)
        (start : option datetime) (i : nat) (pts : list sample)
        (st : state) (out : list event) (A B : string) :
  downsample <> 0 ->
  3 <= threshold ->
  A <> EmptyString ->
  confirmed_street st = Some A ->
  candidate_street st = None \/ candidate_street st = Some A ->
  map fst (retained get_street_name downsample start i pts)
  = [Some B; Some B; Some A] ->
  exists st',
    loop get_street_name downsample threshold start i pts st out = Ok (st', out) /\
    confirmed_street st' = Some A /\
    candidate_street st' = None /\
    finalize final_threshold st' = Ok [].
Proof.
  intros Hd Hth HA Hc Hk Hl. rewrite loop_run by assumption.
  destruct (retained get_street_name downsample start i pts)
    as [|[l1 t1] [|[l2 t2] [|[l3 t3] [|p rest]]]]; try discriminate Hl.
  cbn in Hl. injection Hl as -> -> ->.
  destruct st as [c k ts]. cbn in Hc, Hk. subst c.
  destruct (string_dec B EmptyString) as [->|HB].
  - do 2 take step_empty. take step_clear.
    rewrite !app_nil_r. eexists. repeat split.
  - destruct (string_dec B A) as [->|HAB].
    + do 3 take step_clear. rewrite !app_nil_r. eexists. repeat split.
    + assert (Hk' : k <> Some B) by (destruct Hk; congruence).
      take step_replace. take step_count. take step_clear.
      rewrite !app_nil_r. eexists. repeat split.
Qed.

Lemma return_to_confirmed_clears_candidate_witness :
  exists st',
    loop (answers [Some "Birch"; Some "Birch"; Some "Ash"]%string) 1 3 None 0
         [at_second 30; at_second 40; at_second 50]
         {| confirmed_street := Some "Ash"%string;
            candidate_street := None;
            candidate_times := [] |} []
    = Ok (st', []) /\
    confirmed_street st' = Some "Ash"%string /\
    candidate_street st' = None /\
    finalize 2 st' = Ok [].
Proof.
  apply (return_to_confirmed_clears_candidate
           (answers [Some "Birch"; Some "Birch"; Some "Ash"]%string) 1 3 2 None 0%nat
           [at_second 30; at_second 40; at_second 50]
           {| confirmed_street := Some "Ash"%string;
              candidate_street := None;
              candidate_times := [] |} [] "Ash"%string "Birch"%string).
  - lia.
  - lia.
  - discriminate.
  - reflexivity.
  - left. reflexivity.
  - reflexivity.
Defined.

(** C2 as stated fails: with a threshold of 2 the second B already reaches
    the threshold.  After three Ash samples (Ash confirmed, no candidate),
    the labels Birch, Birch, Ash print a line for Birch at the offset of the
    first Birch. *)
Lemma second_hit_confirms_at_threshold_two :
  after
    (answers [Some "Ash"; Some "Ash"; Some "Ash";
              Some "Birch"; Some "Birch"; Some "Ash"]%string) 1 2
    [at_second 0; at_second 10; at_second 20;
     at_second 30; at_second 40; at_second 50] 3
  = Ok ({| confirmed_street := Some "Ash"%string;
           candidate_street := None;
           candidate_times := [] |}, [(total_seconds 0, "Ash"%string)])
  /\
  loop (answers [Some "Ash"; Some "Ash"; Some "Ash";
                 Some "Birch"; Some "Birch"; Some "Ash"]%string) 1 2 (Some 0) 3
       [at_second 30; at_second 40; at_second 50]
       {| confirmed_street := Some "Ash"%string;
          candidate_street := None;
          candidate_times := [] |} []
  = Ok ({| confirmed_street := Some "Birch"%string;
           candidate_street := Some "Ash"%string;
           candidate_times := [total_seconds 50000000] |},
        [(total_seconds 30000000, "Birch"%string)])
  /\
  process_events
    (answers [Some "Ash"; Some "Ash"; Some "Ash";
              Some "Birch"; Some "Birch"; Some "Ash"]%string) 1 2 2
    [at_second 0; at_second 10; at_second 20;
     at_second 30; at_second 40; at_second 50]
  = Ok [(total_seconds 0, "Ash"%string); (total_seconds 30000000, "Birch"%string)].
Proof. repeat split. Qed.

(** C5: from the initial state with a threshold of 3, the retained labels
    A, A, B, A, A, A, A (A and B distinct street names) print exactly one
    line, for A, at the offset of the fourth retained sample, and none for
    B. *)
Theorem noise_rejection
        (get_street_name : nat -> Q -> Q -> option string)
        (downsample final_threshold : Z) (pts : list sample) (A B : string) :
  downsample <> 0 ->
  A <> EmptyString ->
  B <> EmptyString ->
  A <> B ->
  map fst (retained get_street_name downsample (first_time pts) 0 pts)
  = [Some A; Some A; Some B; Some A; Some A; Some A; Some A] ->
  exists fourth,
    nth_error (map snd (retained get_street_name downsample (first_time pts) 0 pts)) 3
    = Some fourth /\
    process_events get_street_name downsample 3 final_threshold pts
    = Ok [(fourth, A)].
Proof.
  intros Hd HA HB HAB Hl. unfold process_events.
  rewrite loop_run by assumption.
  destruct (retained get_street_name downsample (first_time pts) 0 pts)
    as [|[l1 t1] [|[l2 t2] [|[l3 t3] [|[l4 t4] [|[l5 t5] [|[l6 t6] [|[l7 t7] [|p rest]]]]]]]];
    try discriminate Hl.
  cbn in Hl. injection Hl as -> -> -> -> -> -> ->.
  exists t4. split; [reflexivity|].
  unfold initial.
  take step_replace. take step_count. take step_replace. take step_replace.
  take step_count. take step_confirm. take step_clear.
  reflexivity.
Qed.

Lemma noise_rejection_witness :
  exists fourth,
    nth_error
      (map snd
         (retained
            (answers [Some "Ash"; Some "Ash"; Some "Birch";
                      Some "Ash"; Some "Ash"; Some "Ash"; Some "Ash"]%string)
            1 (first_time (map at_second [0; 10; 20; 30; 40; 50; 60])) 0
            (map at_second [0; 10; 20; 30; 40; 50; 60]))) 3
    = Some fourth /\
    process_events
      (answers [Some "Ash"; Some "Ash"; Some "Birch";
                Some "Ash"; Some "Ash"; Some "Ash"; Some "Ash"]%string)
      1 3 2 (map at_second [0; 10; 20; 30; 40; 50; 60])
    = Ok [(fourth, "Ash"%string)].
Proof.
  apply (noise_rejection
           (answers [Some "Ash"; Some "Ash"; Some "Birch";
                     Some "Ash"; Some "Ash"; Some "Ash"; Some "Ash"]%string)
           1 2 (map at_second [0; 10; 20; 30; 40; 50; 60])
           "Ash"%string "Birch"%string).
  - lia.
  - discriminate.
  - discriminate.
  - discriminate.
  - reflexivity.
Defined.

(** ** The point collector *)

Lemma fold_append {A : Type} (f : A -> sample) (l : list A) (acc : list sample) :
  fold_left (fun acc x => acc ++ [f x]) l acc = acc ++ map f l.
Proof.
  revert acc. induction l as [|x l IH]; intros acc; simpl.
  - now rewrite app_nil_r.
  - rewrite IH, <- app_assoc. reflexivity.
Qed.

Lemma fold_flat {A : Type} (g : A -> list sample) (l : list A) (acc : list sample) :
  fold_left (fun acc x => acc ++ g x) l acc = acc ++ flat_map g l.
Proof.
  revert acc. induction l as [|x l IH]; intros acc; simpl.
  - now rewrite app_nil_r.
  - rewrite IH, <- app_assoc. reflexivity.
Qed.

Lemma fold_left_ext {A B : Type} (f g : A -> B -> A) (l : list B) (a : A) :
  (forall a b, f a b = g a b) -> fold_left f l a = fold_left g l a.
Proof.
  intros H. revert a. induction l as [|b l IH]; intros a; simpl; [reflexivity|].
  now rewrite H, IH.
Qed.

Lemma fold_routes (rs : list GPXRoute) (acc : list sample) :
  fold_left (fun acc route =>
    fold_left (fun acc pt => acc ++ [to_sample pt]) (rte_points route) acc) rs acc
  = acc ++ flat_map (fun route => map to_sample (rte_points route)) rs.
Proof.
  rewrite <- fold_flat. apply fold_left_ext. intros a r. apply fold_append.
Qed.

Lemma fold_segments (ss : list GPXTrackSegment) (acc : list sample) :
  fold_left (fun acc segment =>
    fold_left (fun acc pt => acc ++ [to_sample pt]) (points segment) acc) ss acc
  = acc ++ flat_map (fun segment => map to_sample (points segment)) ss.
Proof.
  rewrite <- fold_flat. apply fold_left_ext. intros a r. apply fold_append.
Qed.

Lemma fold_tracks (ts : list GPXTrack) (acc : list sample) :
  fold_left (fun acc track =>
    fold_left (fun acc segment =>
      fold_left (fun acc pt => acc ++ [to_sample pt]) (points segment) acc)
      (segments track) acc) ts acc
  = acc ++ flat_map (fun track =>
             flat_map (fun segment => map to_sample (points segment))
                      (segments track)) ts.
Proof.
  rewrite <- fold_flat. apply fold_left_ext. intros a r. apply fold_segments.
Qed.

Lemma inhabited_list {A : Type} (l : list A) : l <> [] <-> exists x, In x l.
Proof.
  destruct l as [|x l]; split.
  - intros H. now contradiction H.
  - intros [x []].
  - intros _. exists x. now left.
  - discriminate.
Qed.

Lemma any_track_point_iff (gpx : GPX) :
  any_track_point gpx <-> track_points gpx <> [].
Proof.
  rewrite inhabited_list. unfold any_track_point, track_points. split.
  - intros (track & segment & pt & Ht & Hs & Hp).
    exists (to_sample pt). apply in_flat_map. exists track. split; [exact Ht|].
    apply in_flat_map. exists segment. split; [exact Hs|]. now apply in_map.
  - intros (x & Hx). apply in_flat_map in Hx. destruct Hx as (track & Ht & Hx).
    apply in_flat_map in Hx. destruct Hx as (segment & Hs & Hx).
    apply in_map_iff in Hx. destruct Hx as (pt & _ & Hp).
    exists track, segment, pt. auto.
Qed.

Lemma any_route_point_iff (gpx : GPX) :
  any_route_point gpx <-> route_points gpx <> [].
Proof.
  rewrite inhabited_list. unfold any_route_point, route_points. split.
  - intros (route & pt & Hr & Hp).
    exists (to_sample pt). apply in_flat_map. exists route. split; [exact Hr|].
    now apply in_map.
  - intros (x & Hx). apply in_flat_map in Hx. destruct Hx as (route & Hr & Hx).
    apply in_map_iff in Hx. destruct Hx as (pt & _ & Hp).
    exists route, pt. auto.
Qed.

(** The collector in closed form. *)
Lemma collect_points_closed (gpx : GPX) :
  collect_points gpx
  = match track_points gpx with
    | _ :: _ => track_points gpx
    | [] =>
        match route_points gpx with
        | _ :: _ => route_points gpx
        | [] => waypoint_samples gpx
        end
    end.
Proof.
  assert (Ht : collect_tracks gpx []
               = match track_points gpx with
                 | _ :: _ => Return (track_points gpx)
                 | [] => Fallthrough []
                 end).
  { unfold collect_tracks, track_points.
    destruct (tracks gpx) as [|t ts] eqn:E; [reflexivity|].
    cbn [nonempty]. rewrite fold_tracks. cbn [app].
    now destruct (flat_map _ (t :: ts)). }
  assert (Hr : collect_routes gpx []
               = match route_points gpx with
                 | _ :: _ => Return (route_points gpx)
                 | [] => Fallthrough []
                 end).
  { unfold collect_routes, route_points.
    destruct (routes gpx) as [|r rs] eqn:E; [reflexivity|].
    cbn [nonempty]. rewrite fold_routes. cbn [app].
    now destruct (flat_map _ (r :: rs)). }
  unfold collect_points. rewrite Ht.
  destruct (track_points gpx); [|reflexivity].
  rewrite Hr. destruct (route_points gpx); [|reflexivity].
  unfold collect_waypoints, waypoint_samples.
  destruct (waypoints gpx) as [|w ws]; [reflexivity|].
  cbn [nonempty]. now rewrite fold_append.
Qed.

(** C7: the collector returns all track points in document order when some
    track holds a point; otherwise all route points in document order when
    some route holds a point; otherwise the waypoints in document order,
    which is the empty list when there are none.  It is a total function:
    no case raises. *)
Theorem collect_points_priority (gpx : GPX) :
  (any_track_point gpx -> collect_points gpx = track_points gpx) /\
  (~ any_track_point gpx -> any_route_point gpx ->
   collect_points gpx = route_points gpx) /\
  (~ any_track_point gpx -> ~ any_route_point gpx ->
   collect_points gpx = waypoint_samples gpx) /\
  (~ any_track_point gpx -> ~ any_route_point gpx -> waypoints gpx = [] ->
   collect_points gpx = []).
Proof.
  pose proof (any_track_point_iff gpx) as Ht.
  pose proof (any_route_point_iff gpx) as Hr.
  rewrite collect_points_closed.
  destruct (track_points gpx) as [|a ta]; destruct (route_points gpx) as [|b rb];
    repeat split; intros;
    first [ reflexivity
          | unfold waypoint_samples;
            match goal with E : waypoints gpx = [] |- _ => now rewrite E end
          | exfalso; intuition (congruence || discriminate) ].
Qed.

Lemma collect_points_priority_witness :
  collect_points
    {| tracks := [mkTrack [mkSegment [mkPoint 1 2 (Some 0); mkPoint 3 4 None]]];
       routes := [mkRoute [mkPoint 5 6 None]];
       waypoints := [mkPoint 7 8 None] |}
  = track_points
      {| tracks := [mkTrack [mkSegment [mkPoint 1 2 (Some 0); mkPoint 3 4 None]]];
         routes := [mkRoute [mkPoint 5 6 None]];
         waypoints := [mkPoint 7 8 None] |}.
Proof.
  apply (proj1 (collect_points_priority
                  {| tracks := [mkTrack [mkSegment [mkPoint 1 2 (Some 0); mkPoint 3 4 None]]];
                     routes := [mkRoute [mkPoint 5 6 None]];
                     waypoints := [mkPoint 7 8 None] |})).
  exists (mkTrack [mkSegment [mkPoint 1 2 (Some 0); mkPoint 3 4 None]]),
         (mkSegment [mkPoint 1 2 (Some 0); mkPoint 3 4 None]),
         (mkPoint 1 2 (Some 0)).
  simpl. auto.
Defined.

(** The priority examples of the specification: track points win over
    waypoints, route points win over waypoints when no track has a point,
    and a structure without points gives the empty list. *)
Example tracks_before_waypoints :
  collect_points
    {| tracks := [mkTrack [mkSegment []];
                  mkTrack [mkSegment [mkPoint 1 2 (Some 0)]; mkSegment [mkPoint 3 4 None]]];
       routes := [mkRoute [mkPoint 5 6 None]];
       waypoints := [mkPoint 7 8 None] |}
  = [(1%Q, 2%Q, Some 0); (3%Q, 4%Q, None)].
Proof. reflexivity. Qed.

Example routes_before_waypoints :
  collect_points
    {| tracks := [mkTrack [mkSegment []]];
       routes := [mkRoute [mkPoint 5 6 None]];
       waypoints := [mkPoint 7 8 None] |}
  = [(5%Q, 6%Q, None)].
Proof. reflexivity. Qed.

Example empty_path :
  collect_points {| tracks := [mkTrack []]; routes := []; waypoints := [] |} = [].
Proof. reflexivity. Qed.

(** ** The time formatter *)

Lemma int_of_float_inject (z : Z) : int_of_float (inject_Z z) = z.
Proof.
  unfold int_of_float. destruct (Qle_bool 0 (inject_Z z)).
  - apply Qfloor_Z.
  - apply Qceiling_Z.
Qed.

Lemma Qfloor_div60 (n : Z) (d : positive) :
  Qfloor ((n # d) / 60) = n / (Z.pos d * 60).
Proof.
  unfold Qfloor, Qdiv, Qmult, Qinv. cbn [Qnum Qden].
  rewrite Z.mul_1_r. now rewrite Pos2Z.inj_mul.
Qed.

Lemma Qfloor_frac (n : Z) (d : positive) : Qfloor (n # d) = n / Z.pos d.
Proof. reflexivity. Qed.

Lemma Qfloor_sub60 (n : Z) (d : positive) (m : Z) :
  Qfloor ((n # d) - 60 * inject_Z m) = n / Z.pos d - 60 * m.
Proof.
  unfold Qfloor, Qminus, Qplus, Qopp, Qmult, inject_Z. cbn [Qnum Qden].
  rewrite !Pos.mul_1_r, Z.mul_1_r.
  rewrite Z.div_add by discriminate. lia.
Qed.

Lemma Qnonneg_num (n : Z) (d : positive) : (0 <= n # d)%Q <-> 0 <= n.
Proof. unfold Qle. cbn [Qnum Qden]. lia. Qed.

(** Seconds within the minute: the whole seconds modulo 60. *)
Lemma seconds_field (n : Z) (d : positive) :
  n / Z.pos d - 60 * (n / (Z.pos d * 60)) = (n / Z.pos d) mod 60.
Proof.
  rewrite <- Z.div_div by lia. rewrite Z.mod_eq by lia. reflexivity.
Qed.

Lemma float_mod_nonneg (n : Z) (d : positive) :
  (0 <= float_mod (n # d) 60)%Q.
Proof.
  unfold float_mod. rewrite Qfloor_div60.
  unfold Qle, Qminus, Qplus, Qopp, Qmult, inject_Z. cbn [Qnum Qden].
  rewrite ?Pos.mul_1_r.
  pose proof (Z.mul_div_le n (Z.pos d * 60) ltac:(lia)). lia.
Qed.

Lemma int_of_float_mod (n : Z) (d : positive) :
  int_of_float (float_mod (n # d) 60) = (n / Z.pos d) mod 60.
Proof.
  unfold int_of_float.
  rewrite (proj2 (Qle_bool_iff _ _) (float_mod_nonneg n d)).
  unfold float_mod. rewrite Qfloor_div60, Qfloor_sub60. apply seconds_field.
Qed.

Lemma format_0d_two_digits (z : Z) : 0 <= z -> format_0d 2 z = two_digits z.
Proof.
  intros H. unfold format_0d, two_digits.
  rewrite (proj2 (Z.ltb_ge _ _) H), Z.abs_eq by assumption.
  cbn [String.length String.append]. now rewrite Nat.sub_0_r.
Qed.

Lemma two_digits_length (z : Z) :
  0 <= z < 100 -> String.length (two_digits z) = 2%nat.
Proof.
  intros H. rewrite <- (Z2Nat.id z) by lia.
  assert (Hk : (Z.to_nat z < 100)%nat) by lia.
  generalize dependent (Z.to_nat z). clear. intros k Hk.
  do 100 (destruct k as [|k]; [reflexivity|]). lia.
Qed.

Lemma string_length_append (s1 s2 : string) :
  String.length (s1 ++ s2) = (String.length s1 + String.length s2)%nat.
Proof. induction s1 as [|c s1 IH]; simpl; [reflexivity|now rewrite IH]. Qed.

(** C9: for a non-negative offset the printed string is the minutes
    [floor (offset / 60)] and the seconds [floor (offset mod 60)], each in
    decimal padded with zeros to two characters, with a colon between.  The
    seconds are below 60 and always take two characters; minutes and
    seconds together are the whole seconds of the offset; the minutes are
    never reduced modulo 60, so from 3600 seconds on the minutes field
    exceeds 59, and there is no hour field: below 100 minutes the string has
    five characters. *)
Theorem format_time_delta_minutes_seconds (seconds : Q) :
  (0 <= seconds)%Q ->
  let mm := Qfloor (seconds / 60) in
  let ss := Qfloor (seconds - 60 * inject_Z mm) in
  format_time_delta seconds = (two_digits mm ++ ":" ++ two_digits ss)%string /\
  0 <= mm /\
  0 <= ss < 60 /\
  60 * mm + ss = Qfloor seconds /\
  String.length (two_digits ss) = 2%nat /\
  (mm < 100 -> String.length (format_time_delta seconds) = 5%nat) /\
  ((3600 <= seconds)%Q -> 59 < mm).
Proof.
  destruct seconds as [n d]. intros H0. apply Qnonneg_num in H0.
  cbv zeta. rewrite Qfloor_div60, Qfloor_sub60, seconds_field, Qfloor_frac.
  assert (Hmm : 0 <= n / (Z.pos d * 60)) by (apply Z.div_pos; lia).
  assert (Hss : 0 <= (n / Z.pos d) mod 60 < 60) by (apply Z.mod_pos_bound; lia).
  assert (Hf : format_time_delta (n # d)
               = (two_digits (n / (Z.pos d * 60)) ++ ":"
                  ++ two_digits ((n / Z.pos d) mod 60))%string).
  { unfold format_time_delta, float_floordiv. cbv zeta.
    rewrite int_of_float_inject, int_of_float_mod, Qfloor_div60.
    now rewrite !format_0d_two_digits by lia. }
  repeat split; try lia.
  - exact Hf.
  - rewrite <- Z.div_div by lia.
    pose proof (Z.div_mod (n / Z.pos d) 60 ltac:(lia)). lia.
  - apply two_digits_length. lia.
  - intros Hm. rewrite Hf, !string_length_append, !two_digits_length by lia.
    reflexivity.
  - intros Hh. unfold Qle in Hh. cbn [Qnum Qden] in Hh.
    assert (60 <= n / (Z.pos d * 60)); [|lia].
    apply Z.div_le_lower_bound; lia.
Qed.

Lemma format_time_delta_minutes_seconds_witness :
  format_time_delta 3700 = "61:40"%string /\ 59 < Qfloor (3700 / 60).
Proof.
  pose proof (format_time_delta_minutes_seconds 3700 ltac:(discriminate)) as H.
  cbv zeta in H. destruct H as (Hf & _ & _ & _ & _ & _ & Hh).
  split.
  - rewrite Hf. reflexivity.
  - apply Hh. discriminate.
Defined.

(** The printed form at a few offsets, among them the ones past an hour. *)
Example format_examples :
  format_time_delta 0 = "00:00"%string /\
  format_time_delta (599 # 10) = "00:59"%string /\
  format_time_delta 3599 = "59:59"%string /\
  format_time_delta 3600 = "60:00"%string /\
  format_time_delta 3700 = "61:40"%string /\
  format_time_delta 6000 = "100:00"%string.
Proof. repeat split. Qed.

(** ** Start time and offsets *)

Lemma first_time_some (pts : list sample) (t0 : datetime) :
  first_time pts = Some t0 ->
  exists before lat lon later,
    pts = before ++ (lat, lon, Some t0) :: later /\
    Forall (fun s : sample => snd s = None) before.
Proof.
  induction pts as [|[[lat lon] t] rest IH]; simpl; [discriminate|].
  destruct t as [t|].
  - intros E. injection E as ->. exists [], lat, lon, rest. split; [reflexivity|constructor].
  - intros E. destruct (IH E) as (before & lat' & lon' & later & -> & Hb).
    exists ((lat, lon, None) :: before), lat', lon', later.
    split; [reflexivity|]. constructor; [reflexivity|exact Hb].
Qed.

Lemma first_time_none (pts : list sample) :
  first_time pts = None <-> Forall (fun s : sample => snd s = None) pts.
Proof.
  induction pts as [|[[lat lon] t] rest IH]; simpl.
  - split; [constructor|reflexivity].
  - destruct t as [t|]; split.
    + discriminate.
    + intros H. inversion H. discriminate.
    + intros E. constructor; [reflexivity|now apply IH].
    + intros H. inversion H. now apply IH.
Qed.

Section Retained.

Variable get_street_name : nat -> Q -> Q -> option string.
Variable downsample : Z.
Variable start : option datetime.

Lemma retained_complete (pts : list sample) :
  forall i k lat lon t,
    nth_error pts k = Some (lat, lon, t) ->
    Z.of_nat (i + k) mod downsample = 0 ->
    In (get_street_name (i + k)%nat lat lon, time_diff start t)
       (retained get_street_name downsample start i pts).
Proof.
  induction pts as [|[[lat' lon'] t'] rest IH]; intros i k lat lon t Hn Hm.
  - destruct k; discriminate.
  - destruct k as [|k]; cbn [nth_error retained] in *.
    + injection Hn as -> -> ->. rewrite Nat.add_0_r in *.
      rewrite Hm. now left.
    + replace (i + S k)%nat with (S i + k)%nat in * by lia.
      specialize (IH (S i) k lat lon t Hn Hm).
      destruct (Z.of_nat i mod downsample =? 0); [now right|exact IH].
Qed.

Lemma retained_sound (pts : list sample) :
  forall i label off,
    In (label, off) (retained get_street_name downsample start i pts) ->
    exists k lat lon t,
      nth_error pts k = Some (lat, lon, t) /\
      Z.of_nat (i + k) mod downsample = 0 /\
      label = get_street_name (i + k)%nat lat lon /\
      off = time_diff start t.
Proof.
  induction pts as [|[[lat' lon'] t'] rest IH]; intros i label off Hin.
  - destruct Hin.
  - cbn [retained] in Hin.
    assert (Hrest : In (label, off) (retained get_street_name downsample start (S i) rest) ->
                    exists k lat lon t,
                      nth_error ((lat', lon', t') :: rest) k = Some (lat, lon, t) /\
                      Z.of_nat (i + k) mod downsample = 0 /\
                      label = get_street_name (i + k)%nat lat lon /\
                      off = time_diff start t).
    { intros H. destruct (IH _ _ _ H) as (k & lat & lon & t & Hn & Hm & Hl & Ho).
      exists (S k), lat, lon, t.
      replace (i + S k)%nat with (S i + k)%nat by lia. auto. }
    destruct (Z.of_nat i mod downsample =? 0) eqn:E; [|auto].
    destruct Hin as [Hin|Hin]; [|auto].
    injection Hin as <- <-. exists 0%nat, lat', lon', t'.
    rewrite Nat.add_0_r. apply Z.eqb_eq in E. auto.
Qed.

End Retained.

Lemma first_time_found (before later : list sample) (lat lon : Q) (t0 : datetime) :
  Forall (fun s : sample => snd s = None) before ->
  first_time (before ++ (lat, lon, Some t0) :: later) = Some t0.
Proof.
  induction before as [|[[lat' lon'] t'] before IH]; intros H; [reflexivity|].
  inversion H as [|s l Hs Hrest]; subst. cbn [snd] in Hs. subst t'.
  cbn [app first_time]. now apply IH.
Qed.

(** The events of a run, from the retained samples. *)
Lemma process_events_run
      (get_street_name : nat -> Q -> Q -> option string)
      (downsample threshold final_threshold : Z) (pts : list sample) :
  downsample <> 0 ->
  process_events get_street_name downsample threshold final_threshold pts
  = (let acc := run threshold (initial, [])
                    (retained get_street_name downsample (first_time pts) 0 pts) in
     last <- finalize final_threshold (fst acc) ;;
     Ok (snd acc ++ last)).
Proof.
  intros Hd. unfold process_events. rewrite loop_run by assumption. cbn [bind].
  now destruct (run threshold (initial, []) _) as [st out].
Qed.

(** C6: a run has one start time, [start]: the timestamp of the first
    sample of the whole sequence that has one, whatever the stride skips,
    and none exactly when no sample has a timestamp.  It is what
    [first_time] computes before the loop, and the events of the run are
    those of the retained samples with their offsets taken from it: the
    offset of a retained sample is its timestamp minus [start], in seconds,
    when both exist, and [0.0] otherwise; when no sample has a timestamp
    every offset is [0.0]. *)
Theorem start_time_and_offsets
        (get_street_name : nat -> Q -> Q -> option string)
        (downsample : Z) (pts : list sample) :
  exists start : option datetime,
    match start with
    | Some t0 =>
        exists before lat lon later,
          pts = before ++ (lat, lon, Some t0) :: later /\
          Forall (fun s : sample => snd s = None) before
    | None => Forall (fun s : sample => snd s = None) pts
    end /\
    first_time pts = start /\
    (forall threshold final_threshold, downsample <> 0 ->
       process_events get_street_name downsample threshold final_threshold pts
       = (let acc := run threshold (initial, [])
                         (retained get_street_name downsample start 0 pts) in
          last <- finalize final_threshold (fst acc) ;;
          Ok (snd acc ++ last))) /\
    (forall threshold, downsample <> 0 ->
       loop get_street_name downsample threshold start 0 pts initial []
       = Ok (run threshold (initial, [])
               (retained get_street_name downsample start 0 pts))) /\
    (forall k lat lon t,
       nth_error pts k = Some (lat, lon, t) ->
       Z.of_nat k mod downsample = 0 ->
       In (get_street_name k lat lon,
           match start, t with
           | Some t0, Some t1 => total_seconds (t1 - t0)
           | _, _ => 0%Q
           end)
          (retained get_street_name downsample start 0 pts)) /\
    (forall label off,
       In (label, off) (retained get_street_name downsample start 0 pts) ->
       exists k lat lon t,
         nth_error pts k = Some (lat, lon, t) /\
         Z.of_nat k mod downsample = 0 /\
         label = get_street_name k lat lon /\
         off = match start, t with
               | Some t0, Some t1 => total_seconds (t1 - t0)
               | _, _ => 0%Q
               end) /\
    (Forall (fun s : sample => snd s = None) pts ->
     start = None /\
     forall label off,
       In (label, off) (retained get_street_name downsample start 0 pts) ->
       off = 0%Q).
Proof.
  exists (first_time pts). split.
  { destruct (first_time pts) as [t0|] eqn:E.
    - now apply first_time_some.
    - now apply first_time_none. }
  split; [reflexivity|].
  split; [intros th ft Hd; now apply process_events_run|].
  split; [intros th Hd; now apply loop_run|].
  split; [|split].
  - intros k lat lon t Hn Hm.
    apply (retained_complete get_street_name downsample (first_time pts) pts 0 k lat lon t Hn Hm).
  - intros label off Hin.
    destruct (retained_sound _ _ _ _ _ _ _ Hin) as (k & lat & lon & t & H).
    exists k, lat, lon, t. exact H.
  - intros Hnone. apply first_time_none in Hnone. split; [exact Hnone|].
    intros label off Hin.
    destruct (retained_sound _ _ _ _ _ _ _ Hin) as (k & lat & lon & t & _ & _ & _ & ->).
    now rewrite Hnone.
Qed.

Lemma start_time_and_offsets_witness :
  first_time [untimed; at_second 5; at_second 25] = Some 5000000 /\
  In (Some "Elm"%string, total_seconds (25000000 - 5000000))
     (retained (answers [Some "Ash"; None; Some "Elm"]%string) 2
        (Some 5000000) 0 [untimed; at_second 5; at_second 25]) /\
  process_events (answers [Some "Ash"; None; Some "Elm"]%string) 2 2 1
                 [untimed; at_second 5; at_second 25]
  = Ok [(total_seconds (25000000 - 5000000), "Elm"%string)].
Proof.
  destruct (start_time_and_offsets
              (answers [Some "Ash"; None; Some "Elm"]%string) 2
              [untimed; at_second 5; at_second 25])
    as (start & _ & Hstart & Hrun & _ & Hin & _).
  change (first_time [untimed; at_second 5; at_second 25]) with (Some 5000000)
    in Hstart.
  subst start. split; [reflexivity|]. split.
  - apply (Hin 2%nat 0%Q 0%Q (Some 25000000)); reflexivity.
  - rewrite (Hrun 2 1) by lia. reflexivity.
Defined.

(** The start time can be the timestamp of a sample the stride skips, and
    a reading of the first timestamp that looked only at retained samples
    would give other offsets. *)
Example start_time_from_skipped_sample :
  first_time [untimed; at_second 5; at_second 25] = Some 5000000 /\
  retained (answers [Some "Ash"; None; Some "Elm"]%string) 2
           (first_time [untimed; at_second 5; at_second 25]) 0
           [untimed; at_second 5; at_second 25]
  = [(Some "Ash"%string, 0%Q); (Some "Elm"%string, total_seconds 20000000)].
Proof. split; reflexivity. Qed.

(** ** Order of the hit list and of the output *)

Lemma Qle_transitive : Relations_1.Transitive Qle.
Proof. intros x y z. apply Qle_trans. Qed.

Lemma sorted_snoc (l : list Q) (x : Q) :
  StronglySorted Qle l ->
  Forall (fun y => (y <= x)%Q) l ->
  StronglySorted Qle (l ++ [x]).
Proof.
  induction 1 as [|a l Hs IH Ha]; intros Hx; simpl.
  - constructor; constructor.
  - inversion Hx; subst. constructor; [now apply IH|].
    apply Forall_app. split; [exact Ha|]. now constructor.
Qed.

Lemma sorted_app_l (l1 l2 : list Q) :
  StronglySorted Qle (l1 ++ l2) -> StronglySorted Qle l1.
Proof.
  induction l1 as [|a l1 IH]; simpl; intros H; [constructor|].
  inversion H; subst. constructor; [now apply IH|].
  match goal with F : Forall _ (l1 ++ l2) |- _ => apply Forall_app in F; tauto end.
Qed.

Lemma Forall_le_trans (l : list Q) (x y : Q) :
  Forall (fun t => (t <= x)%Q) l -> (x <= y)%Q -> Forall (fun t => (t <= y)%Q) l.
Proof.
  intros H Hxy. eapply Forall_impl; [|exact H].
  intros t Ht. exact (Qle_trans _ _ _ Ht Hxy).
Qed.

(** The first hit is at most every hit, the new one included. *)
Lemma first_hit_least (ts : list Q) (td : Q) :
  StronglySorted Qle ts ->
  Forall (fun t => (t <= td)%Q) ts ->
  Forall (Qle (hd td ts)) (ts ++ [td]).
Proof.
  intros Hs Hb. destruct ts as [|t0 rest]; simpl.
  - constructor; [apply Qle_refl|constructor].
  - inversion Hs; subst. inversion Hb; subst.
    constructor; [apply Qle_refl|].
    apply Forall_app. split; [assumption|]. now constructor.
Qed.

Lemma first_hit_bounded (ts : list Q) (td y : Q) :
  Forall (fun t => (t <= td)%Q) ts -> (td <= y)%Q -> (hd td ts <= y)%Q.
Proof.
  intros Hb Hy. destruct ts as [|t0 rest]; simpl; [exact Hy|].
  inversion Hb; subst. eapply Qle_trans; [eassumption|exact Hy].
Qed.

Section Ordered.

Variable threshold : Z.

Lemma run1_ordered (acc : state * list event) (p : option string * Q) :
  ordered acc ->
  below acc (snd p) ->
  ordered (run1 threshold acc p) /\
  (forall y, (snd p <= y)%Q -> below (run1 threshold acc p) y).
Proof.
  destruct acc as [st out], p as [street td].
  unfold ordered, below, run1. cbn [fst snd].
  intros (Hts & Hout & Hrel) (Hbt & Hbo).
  assert (Hto : forall y, (td <= y)%Q ->
                  Forall (fun e : event => (fst e <= y)%Q) out).
  { intros y Hy. eapply Forall_impl; [|exact Hbo].
    intros e He. exact (Qle_trans _ _ _ He Hy). }
  assert (Hrel' : Forall (fun e : event =>
                    Forall (Qle (fst e)) (candidate_times st ++ [td])) out).
  { rewrite Forall_forall in *. intros e He.
    apply Forall_app. split; [now apply Hrel|].
    constructor; [now apply Hbo|constructor]. }
  destruct (step_cases threshold st street td)
    as [[_ E]|[(n & _ & _ & _ & E)|[(n & _ & _ & _ & _ & _ & E)
       |[(n & _ & _ & _ & _ & _ & E)|(n & _ & _ & _ & _ & E)]]]];
    rewrite E; cbn [fst snd confirmed_street candidate_street candidate_times];
    rewrite ?app_nil_r.
  - (* skipped *)
    split; [repeat split; assumption|].
    intros y Hy. split; [|auto]. eapply Forall_le_trans; eauto.
  - (* candidate cleared *)
    split.
    + split; [constructor|split; [assumption|]].
      eapply Forall_impl; [|exact Hrel]. intros; constructor.
    + intros y Hy. split; [constructor|auto].
  - (* confirmed *)
    split.
    + split; [now apply sorted_snoc|split].
      * rewrite map_app. cbn [map fst]. apply sorted_snoc; [exact Hout|].
        rewrite Forall_map. rewrite Forall_forall in *. intros e He.
        destruct (candidate_times st) as [|t0 rest] eqn:Et; cbn [hd].
        -- now apply Hbo.
        -- specialize (Hrel e He). now inversion Hrel.
      * apply Forall_app. split; [exact Hrel'|].
        constructor; [|constructor]. cbn [fst]. now apply first_hit_least.
    + intros y Hy. split.
      * apply Forall_app. split; [eapply Forall_le_trans; eauto|].
        constructor; [exact Hy|constructor].
      * apply Forall_app. split; [auto|].
        constructor; [|constructor]. cbn [fst].
        now apply first_hit_bounded.
  - (* counted *)
    split.
    + split; [now apply sorted_snoc|split; assumption].
    + intros y Hy. split; [|auto].
      apply Forall_app. split; [eapply Forall_le_trans; eauto|].
      constructor; [exact Hy|constructor].
  - (* candidate replaced *)
    split.
    + split; [constructor; constructor|split; [assumption|]].
      eapply Forall_impl; [|exact Hbo]. intros e He.
      constructor; [exact He|constructor].
    + intros y Hy. split; [|auto]. constructor; [exact Hy|constructor].
Qed.

Lemma run_ordered (l : list (option string * Q)) :
  forall acc,
    StronglySorted Qle (map snd l) ->
    ordered acc ->
    Forall (fun p => below acc (snd p)) l ->
    ordered (run threshold acc l).
Proof.
  induction l as [|p l IH]; intros acc Hs Ho Hb; [exact Ho|].
  rewrite run_cons. cbn [map] in Hs. inversion Hs; subst.
  inversion Hb; subst.
  destruct (run1_ordered acc p) as [Ho' Hb']; try assumption.
  apply IH; try assumption.
  match goal with F : Forall (Qle (snd p)) (map snd l) |- _ =>
    rewrite Forall_map in F; eapply Forall_impl; [|exact F] end.
  intros q Hq. now apply Hb'.
Qed.

Lemma run_ordered_initial (l : list (option string * Q)) :
  StronglySorted Qle (map snd l) ->
  ordered (run threshold (initial, []) l).
Proof.
  intros Hs. apply run_ordered; [exact Hs| |].
  - unfold ordered. cbn. repeat split; constructor.
  - apply Forall_forall. intros p _. unfold below. cbn. split; constructor.
Qed.

(** One iteration that keeps the candidate keeps its first hit. *)
Lemma run1_keeps_first_hit (acc : state * list event) (p : option string * Q) :
  wf (fst acc) ->
  candidate_street (fst acc) <> None ->
  candidate_street (fst (run1 threshold acc p)) = candidate_street (fst acc) ->
  hd_error (candidate_times (fst (run1 threshold acc p)))
  = hd_error (candidate_times (fst acc)).
Proof.
  destruct acc as [st out], p as [street td]. unfold run1. cbn [fst snd].
  intros (_ & _ & _ & He) Hlive.
  assert (Hne : candidate_times st <> []) by (intros E; now apply Hlive, He).
  destruct (step_cases threshold st street td)
    as [[_ E]|[(n & _ & _ & _ & E)|[(n & _ & _ & _ & Hk & _ & E)
       |[(n & _ & _ & _ & Hk & _ & E)|(n & _ & _ & _ & Hk & E)]]]];
    rewrite E; cbn [fst snd confirmed_street candidate_street candidate_times];
    intros Hsame.
  - reflexivity.
  - now contradiction Hlive.
  - destruct (candidate_times st); [now contradiction Hne|reflexivity].
  - destruct (candidate_times st); [now contradiction Hne|reflexivity].
  - contradiction Hk. now symmetry.
Qed.

End Ordered.

Lemma Ok_inj {A : Type} (a b : A) : Ok a = Ok b -> a = b.
Proof. congruence. Qed.

Lemma firstn_snoc {A : Type} (l : list A) (k : nat) :
  firstn (S k) l
  = firstn k l ++ match nth_error l k with Some x => [x] | None => [] end.
Proof.
  revert k. induction l as [|a l IH]; intros k.
  - destruct k; reflexivity.
  - destruct k as [|k]; [reflexivity|].
    cbn [firstn nth_error app]. f_equal. apply IH.
Qed.

Section Prefixes.

Variable get_street_name : nat -> Q -> Q -> option string.
Variables downsample threshold : Z.
Hypothesis stride : downsample <> 0.

Lemma after_run (pts : list sample) (k : nat) :
  after get_street_name downsample threshold pts k
  = Ok (run threshold (initial, [])
          (retained get_street_name downsample (first_time pts) 0 (firstn k pts))).
Proof. unfold after. now apply loop_run. Qed.

(** The next iteration either skips the sample or runs the body once. *)
Lemma after_succ (pts : list sample) (k : nat) :
  let acc := run threshold (initial, [])
               (retained get_street_name downsample (first_time pts) 0 (firstn k pts)) in
  run threshold (initial, [])
      (retained get_street_name downsample (first_time pts) 0 (firstn (S k) pts))
  = acc
  \/ exists p,
      run threshold (initial, [])
          (retained get_street_name downsample (first_time pts) 0 (firstn (S k) pts))
      = run1 threshold acc p.
Proof.
  cbv zeta. rewrite firstn_snoc, retained_app, run_app.
  destruct (nth_error pts k) as [[[lat lon] t]|]; cbn [retained].
  - destruct (Z.of_nat (0 + List.length (firstn k pts)) mod downsample =? 0).
    + right. eexists. reflexivity.
    + left. reflexivity.
  - left. reflexivity.
Qed.

Lemma retained_prefix_sorted (pts : list sample) (k : nat) :
  StronglySorted Qle
    (map snd (retained get_street_name downsample (first_time pts) 0 pts)) ->
  StronglySorted Qle
    (map snd (retained get_street_name downsample (first_time pts) 0 (firstn k pts))).
Proof.
  rewrite <- (firstn_skipn k pts) at 2.
  rewrite retained_app, map_app. apply sorted_app_l.
Qed.

End Prefixes.

(** C4 (as the code has it): in every run the first element of the hit list
    does not change across an iteration that keeps the candidate.  When the
    offsets of the retained samples are non-decreasing in processing order,
    the hit list is non-decreasing at every point of the run, and so are the
    offsets of the printed lines, those of the final check included. *)
Theorem hit_times_and_events_ordered
        (get_street_name : nat -> Q -> Q -> option string)
        (downsample threshold final_threshold : Z) (pts : list sample) :
  downsample <> 0 ->
  (forall k st1 out1 st2 out2,
      after get_street_name downsample threshold pts k = Ok (st1, out1) ->
      after get_street_name downsample threshold pts (S k) = Ok (st2, out2) ->
      candidate_street st1 <> None ->
      candidate_street st2 = candidate_street st1 ->
      hd_error (candidate_times st2) = hd_error (candidate_times st1)) /\
  (Sorted Qle (map snd (retained get_street_name downsample (first_time pts) 0 pts)) ->
   (forall k st out,
       after get_street_name downsample threshold pts k = Ok (st, out) ->
       Sorted Qle (candidate_times st) /\ Sorted Qle (map fst out)) /\
   (exists evs,
       process_events get_street_name downsample threshold final_threshold pts = Ok evs /\
       Sorted Qle (map fst evs))).
Proof.
  intros Hd. split.
  - intros k st1 out1 st2 out2 H1 H2 Hlive Hsame.
    rewrite after_run in H1, H2 by assumption.
    apply Ok_inj in H1. apply Ok_inj in H2.
    pose proof (run_good threshold
                  (retained get_street_name downsample (first_time pts) 0 (firstn k pts)))
      as [Hwf _].
    destruct (after_succ get_street_name downsample threshold pts k) as [E|[p E]];
      cbv zeta in E; rewrite E in H2; rewrite H1 in *.
    + now injection H2 as <- <-.
    + pose proof (run1_keeps_first_hit threshold (st1, out1) p Hwf Hlive) as Hk.
      rewrite H2 in Hk. cbn [fst] in Hk. now apply Hk.
  - intros Hs. apply (Sorted_StronglySorted Qle_transitive) in Hs. split.
    + intros k st out H. rewrite after_run in H by assumption. apply Ok_inj in H.
      pose proof (run_ordered_initial threshold _
                    (retained_prefix_sorted get_street_name downsample pts k Hs))
        as (Ht & Ho & _).
      rewrite H in Ht, Ho. cbn [fst snd] in Ht, Ho.
      split; now apply StronglySorted_Sorted.
    + unfold process_events. rewrite loop_run by assumption. cbn [bind].
      pose proof (run_good threshold
                    (retained get_street_name downsample (first_time pts) 0 pts))
        as [Hwf _].
      pose proof (run_ordered_initial threshold _ Hs) as (Ht & Ho & Hrel).
      destruct (run threshold (initial, [])
                  (retained get_street_name downsample (first_time pts) 0 pts))
        as [st out].
      cbn [fst snd] in *. rewrite (finalize_wf final_threshold st Hwf). cbn [bind].
      eexists. split; [reflexivity|]. apply StronglySorted_Sorted.
      destruct (candidate_street st) as [name|] eqn:Ek;
        [|now rewrite app_nil_r].
      destruct (eq_street (Some name) (confirmed_street st));
        [now rewrite app_nil_r|].
      destruct (final_threshold <=? _); [|now rewrite app_nil_r].
      rewrite map_app. cbn [map fst]. apply sorted_snoc; [exact Ho|].
      rewrite Forall_map. eapply Forall_impl; [|exact Hrel].
      intros e He. destruct Hwf as (_ & _ & _ & Hne).
      destruct (candidate_times st) as [|t0 rest]; [|now inversion He].
      specialize (Hne eq_refl). congruence.
Qed.

Lemma hit_times_and_events_ordered_witness :
  exists evs,
    process_events
      (answers [Some "Ash"; Some "Ash"; Some "Birch"; Some "Birch"]%string) 1 2 2
      [at_second 0; at_second 10; at_second 20; at_second 30]
    = Ok evs /\
    Sorted Qle (map fst evs).
Proof.
  apply (proj2 (hit_times_and_events_ordered
                  (answers [Some "Ash"; Some "Ash"; Some "Birch"; Some "Birch"]%string)
                  1 2 2 [at_second 0; at_second 10; at_second 20; at_second 30]
                  ltac:(lia))).
  cbn. repeat constructor; unfold Qle; simpl; lia.
Defined.

Lemma sorted_head_pair (a b : Q) (l : list Q) :
  Sorted Qle (a :: b :: l) -> (a <= b)%Q.
Proof.
  intros H. apply Sorted_inv in H. destruct H as [_ H]. now inversion H.
Qed.

(** C4 as stated fails on a sample without a timestamp in mid-sequence: its
    offset is 0.0.  Here the fourth sample has none: after it the hit list of
    the candidate Ash is 50, 60, 0, and the run prints Ash at 50 seconds
    and then Birch at 0 seconds. *)
Lemma untimed_sample_breaks_order :
  exists st out,
    after
      (answers [Some "Oak"; Some "Ash"; Some "Ash"; Some "Ash";
                Some "Birch"; Some "Birch"; Some "Birch"]%string) 1 4
      [at_second 0; at_second 50; at_second 60; untimed; untimed; untimed; untimed] 4
    = Ok (st, out) /\
    candidate_street st = Some "Ash"%string /\
    candidate_times st = [total_seconds 50000000; total_seconds 60000000; 0%Q] /\
    ~ Sorted Qle (candidate_times st) /\
    process_events
      (answers [Some "Oak"; Some "Ash"; Some "Ash"; Some "Ash";
                Some "Birch"; Some "Birch"; Some "Birch"]%string) 1 3 2
      [at_second 0; at_second 50; at_second 60; untimed; untimed; untimed; untimed]
    = Ok [(total_seconds 50000000, "Ash"%string); (0%Q, "Birch"%string)] /\
    ~ Sorted Qle (map fst [(total_seconds 50000000, "Ash"%string); (0%Q, "Birch"%string)]).
Proof.
  eexists. eexists. split; [reflexivity|].
  split; [reflexivity|]. split; [reflexivity|]. split; [|split; [reflexivity|]].
  - cbn [candidate_times]. intros H. apply Sorted_inv in H. destruct H as [H _].
    apply sorted_head_pair in H. unfold Qle in H. simpl in H. lia.
  - cbn [map fst]. intros H. apply sorted_head_pair in H.
    unfold Qle in H. simpl in H. lia.
Qed.

(** With timestamps on every sample, in chronological order, the offsets
    of the retained samples are non-decreasing, whatever the start time. *)
Lemma chronological_offsets
      (get_street_name : nat -> Q -> Q -> option string) (downsample : Z)
      (t0 : datetime) (pts : list sample) :
  forall i times,
    map (fun s : sample => snd s) pts = map Some times ->
    StronglySorted Z.le times ->
    StronglySorted Qle
      (map snd (retained get_street_name downsample (Some t0) i pts)).
Proof.
  induction pts as [|[[lat lon] t] rest IH]; intros i times Hm Hs.
  - constructor.
  - destruct times as [|t1 times]; [discriminate|].
    cbn [map snd] in Hm. injection Hm as -> Hm.
    inversion Hs as [|a l Hs' Hall]; subst.
    pose proof (IH (S i) times Hm Hs') as Htail.
    cbn [retained]. destruct (Z.of_nat i mod downsample =? 0); [|exact Htail].
    cbn [map snd]. constructor; [exact Htail|].
    rewrite Forall_map, Forall_forall. intros [label off] Hin.
    destruct (retained_sound _ _ _ _ _ _ _ Hin)
      as (k & lat' & lon' & t' & Hn & _ & _ & ->).
    cbn [snd]. apply nth_error_In in Hn.
    apply (in_map (fun s : sample => snd s)) in Hn. rewrite Hm in Hn.
    cbn [snd] in Hn. apply in_map_iff in Hn. destruct Hn as (x & <- & Hx).
    rewrite Forall_forall in Hall. specialize (Hall x Hx).
    unfold time_diff, total_seconds, Qle. cbn [Qnum Qden]. lia.
Qed.

(** * Further properties of the code *)

(** ** The geocoder *)

Lemma truthy_py_or (a b : option string) :
  truthy (py_or a b) = truthy a || truthy b.
Proof. unfold py_or. destruct (truthy a) eqn:E; [now rewrite E|reflexivity]. Qed.

(** When the request fails, the status is not 200, or the body has no
    address, the function returns [None]. *)
Theorem get_street_name_no_answer
        (requests_get : nat -> Q -> Q -> reply) (i : nat) (lat lon : Q) :
  requests_get i lat lon = RequestException \/
  (exists code address,
      requests_get i lat lon = Response code address /\ code <> 200) \/
  (exists code, requests_get i lat lon = Response code None) ->
  get_street_name requests_get i lat lon = None.
Proof.
  unfold get_street_name. intros [E|[(code & address & E & Hc)|(code & E)]]; rewrite E.
  - reflexivity.
  - now rewrite (proj2 (Z.eqb_neq _ _) Hc).
  - now destruct (code =? 200).
Qed.

Lemma get_street_name_no_answer_witness :
  get_street_name (fun _ _ _ => Response 503 (Some [("road", "Elm")]%string)) 0 0 0
  = None.
Proof.
  apply get_street_name_no_answer. right. left.
  exists 503, (Some [("road", "Elm")]%string). split; [reflexivity|discriminate].
Defined.

(** On a 200 reply the answer is the first of road, footway, pedestrian
    that is a non-empty string, so a road wins over a footway and a footway
    over a pedestrian way; the answer is a non-empty string exactly when
    one of the three is. *)
Theorem get_street_name_priority
        (requests_get : nat -> Q -> Q -> reply) (i : nat) (lat lon : Q)
        (address : dict) :
  requests_get i lat lon = Response 200 (Some address) ->
  let road := dict_get address "road" in
  let footway := dict_get address "footway" in
  let pedestrian := dict_get address "pedestrian" in
  let street := get_street_name requests_get i lat lon in
  (truthy road = true -> street = road) /\
  (truthy road = false -> truthy footway = true -> street = footway) /\
  (truthy road = false -> truthy footway = false -> street = pedestrian) /\
  truthy street = truthy road || truthy footway || truthy pedestrian.
Proof.
  intros E. cbv zeta. unfold get_street_name. rewrite E. cbn [Z.eqb Pos.eqb].
  repeat split.
  - intros H. unfold py_or. now rewrite H, H.
  - intros H1 H2. unfold py_or. now rewrite H1, H2.
  - intros H1 H2. unfold py_or. now rewrite H1, H2.
  - now rewrite !truthy_py_or.
Qed.

Lemma get_street_name_priority_witness :
  get_street_name
    (fun _ _ _ => Response 200 (Some [("footway", "Canal Path"); ("road", "")]%string))
    0 0 0
  = Some "Canal Path"%string.
Proof.
  pose proof (get_street_name_priority
                (fun _ _ _ => Response 200
                                (Some [("footway", "Canal Path"); ("road", "")]%string))
                0%nat 0%Q 0%Q [("footway", "Canal Path"); ("road", "")]%string eq_refl)
    as H.
  cbv zeta in H. destruct H as (_ & H & _). apply H; reflexivity.
Defined.

(** The function returns the empty string exactly on a 200 reply whose
    pedestrian member is the empty string while road and footway are
    missing or empty: the one way an empty label reaches the loop. *)
Theorem get_street_name_empty_string
        (requests_get : nat -> Q -> Q -> reply) (i : nat) (lat lon : Q) :
  get_street_name requests_get i lat lon = Some EmptyString <->
  exists address,
    requests_get i lat lon = Response 200 address /\
    let a := match address with Some a => a | None => [] end in
    truthy (dict_get a "road") = false /\
    truthy (dict_get a "footway") = false /\
    dict_get a "pedestrian" = Some EmptyString.
Proof.
  unfold get_street_name. cbv zeta.
  destruct (requests_get i lat lon) as [|code address].
  - split; [discriminate|]. intros (a & E & _). discriminate.
  - destruct (code =? 200) eqn:Ec.
    + apply Z.eqb_eq in Ec. subst code. split.
      * intros H. exists address. split; [reflexivity|].
        set (a := match address with Some a => a | None => [] end) in *.
        unfold py_or in H.
        destruct (truthy (dict_get a "road")) eqn:Hr.
        { rewrite Hr in H. rewrite H in Hr. discriminate. }
        destruct (truthy (dict_get a "footway")) eqn:Hf.
        { rewrite H in Hf. discriminate. }
        auto.
      * intros (a & E & Hr & Hf & Hp). injection E as <-.
        unfold py_or. rewrite Hr, Hf. exact Hp.
    + split; [discriminate|]. intros (a & E & _).
      injection E as -> _. discriminate.
Qed.

Lemma get_street_name_empty_string_witness :
  get_street_name
    (fun _ _ _ => Response 200 (Some [("pedestrian", ""); ("suburb", "Mitte")]%string))
    0 0 0
  = Some EmptyString.
Proof.
  apply get_street_name_empty_string.
  exists (Some [("pedestrian", ""); ("suburb", "Mitte")]%string).
  repeat split.
Defined.

(** ** The loop: stride, errors and thresholds *)

(** The geocoder is consulted only for the samples the stride keeps: two
    geocoders that agree on the indices divisible by [downsample] give the
    same run, whatever they answer elsewhere. *)
Theorem skipped_samples_are_not_geocoded
        (g1 g2 : nat -> Q -> Q -> option string)
        (downsample threshold final_threshold : Z) (pts : list sample) :
  (forall i lat lon,
      Z.of_nat i mod downsample = 0 -> g1 i lat lon = g2 i lat lon) ->
  process_points g1 downsample threshold final_threshold pts
  = process_points g2 downsample threshold final_threshold pts.
Proof.
  intros H.
  assert (Hl : forall start i st out,
             loop g1 downsample threshold start i pts st out
             = loop g2 downsample threshold start i pts st out).
  { intros start. induction pts as [|[[lat lon] t] rest IH]; intros i st out.
    - reflexivity.
    - cbn [loop]. unfold py_mod. destruct (downsample =? 0); [reflexivity|].
      cbn [bind]. destruct (Z.of_nat i mod downsample =? 0) eqn:E; cbn [negb].
      + apply Z.eqb_eq in E. rewrite (H i lat lon E).
        destruct (body threshold st (g2 i lat lon) (time_diff start t))
          as [[st' printed]|e]; cbn [bind]; [apply IH|reflexivity].
      + apply IH. }
  unfold process_points, process_events. now rewrite Hl.
Qed.

Lemma skipped_samples_are_not_geocoded_witness :
  process_points (answers [Some "Ash"; Some "Oak"; Some "Ash"]%string) 2 2 2
                 [at_second 0; at_second 5; at_second 10]
  = process_points (answers [Some "Ash"; None; Some "Ash"]%string) 2 2 2
                   [at_second 0; at_second 5; at_second 10].
Proof.
  apply skipped_samples_are_not_geocoded.
  intros i lat lon H. unfold answers.
  destruct i as [|[|[|i]]]; try reflexivity. discriminate H.
Defined.

(** With a stride that is not zero the run returns its events. *)
Lemma process_events_returns
      (get_street_name : nat -> Q -> Q -> option string)
      (downsample threshold final_threshold : Z) (pts : list sample) :
  downsample <> 0 ->
  exists evs,
    process_events get_street_name downsample threshold final_threshold pts = Ok evs.
Proof.
  intros Hd. unfold process_events. rewrite loop_run by assumption. cbn [bind].
  pose proof (run_good threshold
                (retained get_street_name downsample (first_time pts) 0 pts))
    as [Hwf _].
  destruct (run threshold (initial, []) _) as [st out]. cbn [fst] in Hwf.
  rewrite (finalize_wf final_threshold st Hwf). cbn [bind].
  eexists. reflexivity.
Qed.

(** The only failure of [process_points] is the division by a zero stride,
    and it happens on every list of points that is not empty; with any
    other stride, or without points, the call returns. *)
Theorem process_points_fails_only_on_zero_stride
        (get_street_name : nat -> Q -> Q -> option string)
        (downsample threshold final_threshold : Z) (pts : list sample) :
  (downsample = 0 -> pts <> [] ->
   process_points get_street_name downsample threshold final_threshold pts
   = Raise ZeroDivisionError) /\
  (downsample <> 0 \/ pts = [] ->
   exists lines,
     process_points get_street_name downsample threshold final_threshold pts
     = Ok lines).
Proof.
  split.
  - intros -> Hne. destruct pts as [|p rest]; [now contradiction Hne|].
    unfold process_points, process_events. cbn [nonempty negb].
    now rewrite loop_zero_stride.
  - intros [Hd | ->]; [|eexists; reflexivity].
    unfold process_points. destruct (nonempty pts); cbn [negb];
      [|eexists; reflexivity].
    destruct (process_events_returns get_street_name downsample threshold
                final_threshold pts Hd) as [evs E].
    rewrite E. cbn [bind]. eexists. reflexivity.
Qed.

Lemma process_points_fails_only_on_zero_stride_witness :
  process_points (answers [Some "Ash"]%string) 0 3 2 [at_second 0]
  = Raise ZeroDivisionError.
Proof.
  apply (proj1 (process_points_fails_only_on_zero_stride
                  (answers [Some "Ash"]%string) 0 3 2 [at_second 0])).
  - reflexivity.
  - discriminate.
Defined.

(** A negative stride keeps the same samples as its absolute value. *)
Theorem negative_stride_as_positive
        (get_street_name : nat -> Q -> Q -> option string)
        (downsample threshold final_threshold : Z) (pts : list sample) :
  process_points get_street_name (- downsample) threshold final_threshold pts
  = process_points get_street_name downsample threshold final_threshold pts.
Proof.
  assert (Hm : forall a, downsample <> 0 ->
             (a mod - downsample =? 0) = (a mod downsample =? 0)).
  { intros a Hd. destruct (a mod downsample =? 0) eqn:E.
    - apply Z.eqb_eq in E. apply Z.eqb_eq.
      apply Z.mod_divide in E; [|assumption].
      apply Z.mod_divide; [lia|]. now apply Z.divide_opp_l.
    - apply Z.eqb_neq in E. apply Z.eqb_neq. intros E'. apply E.
      apply Z.mod_divide in E'; [|lia].
      apply Z.mod_divide; [assumption|]. now apply Z.divide_opp_l. }
  assert (Hl : forall start i st out,
             loop get_street_name (- downsample) threshold start i pts st out
             = loop get_street_name downsample threshold start i pts st out).
  { intros start. induction pts as [|[[lat lon] t] rest IH]; intros i st out.
    - reflexivity.
    - cbn [loop]. unfold py_mod.
      destruct (Z.eq_dec downsample 0) as [-> | Hd]; [reflexivity|].
      rewrite (proj2 (Z.eqb_neq _ _) Hd).
      rewrite (proj2 (Z.eqb_neq (- downsample) 0)) by lia.
      cbn [bind]. rewrite Hm by assumption.
      destruct (Z.of_nat i mod downsample =? 0); cbn [negb].
      + destruct (body threshold st (get_street_name i lat lon) (time_diff start t))
          as [[st' printed]|e]; cbn [bind]; [apply IH|reflexivity].
      + apply IH. }
  unfold process_points, process_events. now rewrite Hl.
Qed.

(** A threshold below 2 behaves as 2: the first hit only makes the street
    the candidate, and the test against the threshold is made on the later
    hits, so no street is confirmed in the loop on a single hit. *)
Theorem threshold_below_two_as_two
        (get_street_name : nat -> Q -> Q -> option string)
        (downsample threshold final_threshold : Z) (pts : list sample) :
  threshold <= 2 ->
  process_points get_street_name downsample threshold final_threshold pts
  = process_points get_street_name downsample 2 final_threshold pts.
Proof.
  intros Hth.
  assert (Hs : forall st street td,
             wf st -> step threshold st street td = step 2 st street td).
  { intros st street td (_ & _ & _ & He). unfold step.
    destruct street as [name|]; [|reflexivity].
    destruct (String.eqb name EmptyString); [reflexivity|].
    destruct (eq_street (Some name) (confirmed_street st)); [reflexivity|].
    destruct (eq_street (Some name) (candidate_street st)) eqn:Ek; [|reflexivity].
    cbv zeta. rewrite snoc_length.
    apply eq_street_true in Ek.
    destruct (candidate_times st) as [|t0 rest] eqn:Et.
    { specialize (He eq_refl). congruence. }
    cbn [List.length].
    rewrite (proj2 (Z.leb_le threshold _)) by lia.
    now rewrite (proj2 (Z.leb_le 2 _)) by lia. }
  assert (Hr : forall l acc, good acc -> run threshold acc l = run 2 acc l).
  { induction l as [|p l IH]; intros acc Hg; [reflexivity|].
    rewrite !run_cons.
    assert (E : run1 threshold acc p = run1 2 acc p).
    { unfold run1. rewrite Hs; [reflexivity|apply Hg]. }
    rewrite <- E. apply IH. now apply run1_good. }
  unfold process_points, process_events.
  destruct (Z.eq_dec downsample 0) as [-> | Hd].
  - destruct pts as [|p rest]; [reflexivity|]. now rewrite !loop_zero_stride.
  - rewrite !loop_run by assumption. rewrite Hr by apply initial_good. reflexivity.
Qed.

Lemma threshold_below_two_as_two_witness :
  process_points (answers [Some "Ash"; Some "Ash"]%string) 1 1 5
                 [at_second 0; at_second 10]
  = process_points (answers [Some "Ash"; Some "Ash"]%string) 1 2 5
                   [at_second 0; at_second 10].
Proof. apply threshold_below_two_as_two. lia. Defined.

(** ** What a run prints *)





Section Provenance.

Variable threshold : Z.
Variable seen : list (option string * Q).

(** Printed lines and hits come from the samples in [seen]. *)
Let from_seen (acc : state * list event) : Prop :=
  (forall e, In e (snd acc) -> In (Some (snd e), fst e) seen) /\
  (forall t, In t (candidate_times (fst acc)) ->
             In (candidate_street (fst acc), t) seen).

Lemma run1_from_seen (acc : state * list event) (p : option string * Q) :
  from_seen acc -> In p seen -> from_seen (run1 threshold acc p).
Proof.
  destruct acc as [st out], p as [street td].
  unfold from_seen, run1. cbn [fst snd]. intros [Hout Hts] Hp.
  destruct (step_cases threshold st street td)
    as [[_ E]|[(n & _ & _ & _ & E)|[(n & -> & _ & _ & Hk & _ & E)
       |[(n & -> & _ & _ & Hk & _ & E)|(n & -> & _ & _ & _ & E)]]]];
    rewrite E; cbn [fst snd confirmed_street candidate_street candidate_times];
    rewrite ?app_nil_r.
  - auto.
  - split; [exact Hout|]. intros t [].
  - assert (Hts' : forall t, In t (candidate_times st ++ [td]) -> In (Some n, t) seen).
    { intros t Ht. apply in_app_or in Ht. destruct Ht as [Ht|[<-|[]]].
      - rewrite <- Hk. now apply Hts.
      - exact Hp. }
    split; [|exact Hts'].
    intros e He. apply in_app_or in He. destruct He as [He|[<-|[]]]; [now apply Hout|].
    cbn [fst snd]. apply Hts'.
    destruct (candidate_times st); cbn; auto.
  - split; [exact Hout|].
    intros t Ht. apply in_app_or in Ht. destruct Ht as [Ht|[<-|[]]].
    + rewrite <- Hk. now apply Hts.
    + exact Hp.
  - split; [exact Hout|]. intros t [<-|[]]. exact Hp.
Qed.

Lemma run_from_seen (l : list (option string * Q)) :
  forall acc, from_seen acc -> incl l seen -> from_seen (run threshold acc l).
Proof.
  induction l as [|p l IH]; intros acc Ha Hl; [exact Ha|].
  rewrite run_cons. apply IH.
  - apply run1_from_seen; [exact Ha|]. apply Hl. now left.
  - intros q Hq. apply Hl. now right.
Qed.

Lemma run_from_seen_initial (l : list (option string * Q)) :
  incl l seen ->
  (forall e, In e (snd (run threshold (initial, []) l)) ->
             In (Some (snd e), fst e) seen) /\
  (forall t, In t (candidate_times (fst (run threshold (initial, []) l))) ->
             In (candidate_street (fst (run threshold (initial, []) l)), t) seen).
Proof.
  intros Hl. apply (run_from_seen l (initial, [])); [|exact Hl].
  split; intros x [].
Qed.

End Provenance.

(** Every printed line names a street the geocoder returned for a retained
    sample, at the offset of such a sample: no line is made up, and no
    offset is one of a skipped sample or of a sample with another label. *)
Theorem printed_lines_come_from_samples
        (get_street_name : nat -> Q -> Q -> option string)
        (downsample threshold final_threshold : Z)
        (pts : list sample) (evs : list event) :
  process_events get_street_name downsample threshold final_threshold pts = Ok evs ->
  forall off name,
    In (off, name) evs ->
    In (Some name, off)
       (retained get_street_name downsample (first_time pts) 0 pts).
Proof.
  unfold process_events.
  destruct (Z.eq_dec downsample 0) as [-> | Hd].
  { destruct pts as [|p rest].
    - cbn. intros E. injection E as <-. intros off name [].
    - rewrite loop_zero_stride. discriminate. }
  rewrite loop_run by assumption. cbn [bind].
  pose proof (run_good threshold
                (retained get_street_name downsample (first_time pts) 0 pts))
    as [Hwf _].
  pose proof (run_from_seen_initial threshold _ _ (incl_refl
                (retained get_street_name downsample (first_time pts) 0 pts)))
    as [Hout Hts].
  destruct (run threshold (initial, []) _) as [st out]. cbn [fst snd] in *.
  rewrite (finalize_wf final_threshold st Hwf). cbn [bind].
  intros E. injection E as <-. intros off name Hin.
  apply in_app_or in Hin. destruct Hin as [Hin|Hin]; [apply (Hout _ Hin)|].
  destruct (candidate_street st) as [cand|] eqn:Ek; [|destruct Hin].
  destruct (eq_street (Some cand) (confirmed_street st)); [destruct Hin|].
  destruct (final_threshold <=? _); [|destruct Hin].
  destruct Hin as [Hin|[]]. injection Hin as <- <-.
  apply Hts. destruct Hwf as (_ & _ & _ & Hne).
  destruct (candidate_times st); [|now left].
  specialize (Hne eq_refl). congruence.
Qed.

Lemma printed_lines_come_from_samples_witness :
  In (Some "Ash"%string, total_seconds 0)
     (retained (answers [Some "Ash"; None; Some "Ash"]%string) 1
        (first_time [at_second 0; at_second 5; at_second 10]) 0
        [at_second 0; at_second 5; at_second 10]).
Proof.
  apply (printed_lines_come_from_samples
           (answers [Some "Ash"; None; Some "Ash"]%string) 1 2 2
           [at_second 0; at_second 5; at_second 10]
           [(total_seconds 0, "Ash"%string)] eq_refl).
  now left.
Defined.

Lemma no_repeat_snoc (l : list string) (x : string) :
  no_repeat l ->
  last (map Some l) None <> Some x ->
  no_repeat (l ++ [x]).
Proof.
  induction l as [|a l IH]; intros Hn Hl; [exact I|].
  destruct l as [|b l].
  - cbn in *. split; [congruence|exact I].
  - destruct Hn as [Hab Hn]. split; [exact Hab|].
    apply IH; [exact Hn|exact Hl].
Qed.

Lemma last_street_snoc (out : list event) (e : event) :
  last_street (out ++ [e]) = Some (snd e).
Proof. unfold last_street. rewrite map_app. cbn [map]. apply last_last. Qed.

Section Alternation.

Variable threshold : Z.

(** The confirmed street is the one of the last printed line. *)
Let alternating (acc : state * list event) : Prop :=
  no_repeat (map snd (snd acc)) /\
  last_street (snd acc) = confirmed_street (fst acc).

Lemma run1_alternating (acc : state * list event) (p : option string * Q) :
  alternating acc -> alternating (run1 threshold acc p).
Proof.
  destruct acc as [st out], p as [street td].
  unfold alternating, run1. cbn [fst snd]. intros [Hn Hl].
  destruct (step_cases threshold st street td)
    as [[_ E]|[(n & _ & _ & _ & E)|[(n & _ & _ & Hc & _ & _ & E)
       |[(n & _ & _ & _ & _ & _ & E)|(n & _ & _ & _ & _ & E)]]]];
    rewrite E; cbn [fst snd confirmed_street candidate_street candidate_times];
    rewrite ?app_nil_r; auto.
  split; [|apply last_street_snoc].
  rewrite map_app. cbn [map snd]. apply no_repeat_snoc; [exact Hn|].
  unfold last_street in Hl. rewrite map_map, Hl. congruence.
Qed.

Lemma run_alternating (l : list (option string * Q)) :
  no_repeat (map snd (snd (run threshold (initial, []) l))) /\
  last_street (snd (run threshold (initial, []) l))
  = confirmed_street (fst (run threshold (initial, []) l)).
Proof.
  apply (run_invariant threshold alternating); [apply run1_alternating|].
  split; [exact I|reflexivity].
Qed.

(** A candidate that is not the confirmed street has fewer hits than the
    threshold, or a single one. *)
Let short (acc : state * list event) : Prop :=
  candidate_street (fst acc) <> confirmed_street (fst acc) ->
  Z.of_nat (List.length (candidate_times (fst acc))) < Z.max threshold 2.

Lemma run1_short (acc : state * list event) (p : option string * Q) :
  short acc -> short (run1 threshold acc p).
Proof.
  destruct acc as [st out], p as [street td].
  unfold short, run1. cbn [fst snd]. intros Hs.
  destruct (step_cases threshold st street td)
    as [[_ E]|[(n & _ & _ & _ & E)|[(n & _ & _ & _ & _ & _ & E)
       |[(n & _ & _ & _ & _ & Hl & E)|(n & _ & _ & _ & _ & E)]]]];
    rewrite E; cbn [fst snd confirmed_street candidate_street candidate_times List.length].
  - exact Hs.
  - intros _. lia.
  - intros H. now contradiction H.
  - intros _. rewrite snoc_length. lia.
  - intros _. lia.
Qed.

Lemma run_short (l : list (option string * Q)) :
  candidate_street (fst (run threshold (initial, []) l))
  <> confirmed_street (fst (run threshold (initial, []) l)) ->
  Z.of_nat (List.length (candidate_times (fst (run threshold (initial, []) l))))
  < Z.max threshold 2.
Proof.
  apply (run_invariant threshold short); [apply run1_short|].
  intros H. now contradiction H.
Qed.

End Alternation.

(** No street is printed twice in a row: each printed line names another
    street than the line before it, the line of the final check included. *)
Theorem no_street_twice_in_a_row
        (get_street_name : nat -> Q -> Q -> option string)
        (downsample threshold final_threshold : Z)
        (pts : list sample) (evs : list event) :
  process_events get_street_name downsample threshold final_threshold pts = Ok evs ->
  no_repeat (map snd evs).
Proof.
  unfold process_events.
  destruct (Z.eq_dec downsample 0) as [-> | Hd].
  { destruct pts as [|p rest].
    - cbn. intros E. now injection E as <-.
    - rewrite loop_zero_stride. discriminate. }
  rewrite loop_run by assumption. cbn [bind].
  pose proof (run_good threshold
                (retained get_street_name downsample (first_time pts) 0 pts))
    as [Hwf _].
  pose proof (run_alternating threshold
                (retained get_street_name downsample (first_time pts) 0 pts))
    as [Hn Hl].
  destruct (run threshold (initial, []) _) as [st out]. cbn [fst snd] in *.
  rewrite (finalize_wf final_threshold st Hwf). cbn [bind].
  intros E. injection E as <-.
  destruct (candidate_street st) as [cand|] eqn:Ek; [|now rewrite app_nil_r].
  destruct (eq_street (Some cand) (confirmed_street st)) eqn:Ec;
    [now rewrite app_nil_r|].
  destruct (final_threshold <=? _); [|now rewrite app_nil_r].
  rewrite map_app. cbn [map snd]. apply no_repeat_snoc; [exact Hn|].
  apply eq_street_false in Ec.
  unfold last_street in Hl. rewrite map_map, Hl. congruence.
Qed.

Lemma no_street_twice_in_a_row_witness :
  no_repeat (map snd [(total_seconds 0, "Ash"%string);
                      (total_seconds 20000000, "Birch"%string);
                      (total_seconds 40000000, "Ash"%string)]).
Proof.
  apply (no_street_twice_in_a_row
           (answers [Some "Ash"; Some "Ash"; Some "Birch"; Some "Birch";
                     Some "Ash"; Some "Ash"]%string) 1 2 2
           [at_second 0; at_second 10; at_second 20; at_second 30;
            at_second 40; at_second 50]).
  reflexivity.
Defined.

(** When the loop ends, a candidate that is not the confirmed street has
    fewer than [max threshold 2] hits.  So the final check confirms only
    candidates too short for the loop, and with a final threshold of
    [max threshold 2] or more it never prints. *)
Theorem final_check_only_for_short_candidates
        (get_street_name : nat -> Q -> Q -> option string)
        (downsample threshold final_threshold : Z)
        (pts : list sample) (st : state) (out : list event) :
  loop get_street_name downsample threshold (first_time pts) 0 pts initial []
  = Ok (st, out) ->
  (candidate_street st <> confirmed_street st ->
   Z.of_nat (List.length (candidate_times st)) < Z.max threshold 2) /\
  (Z.max threshold 2 <= final_threshold ->
   process_events get_street_name downsample threshold final_threshold pts = Ok out).
Proof.
  intros Hloop.
  assert (Hs : candidate_street st <> confirmed_street st ->
               Z.of_nat (List.length (candidate_times st)) < Z.max threshold 2).
  { destruct (Z.eq_dec downsample 0) as [-> | Hd].
    - destruct pts as [|p rest].
      + cbn in Hloop. injection Hloop as <- <-. intros H. now contradiction H.
      + rewrite loop_zero_stride in Hloop. discriminate.
    - rewrite loop_run in Hloop by assumption. apply Ok_inj in Hloop.
      pose proof (run_short threshold
                    (retained get_street_name downsample (first_time pts) 0 pts)) as H.
      now rewrite Hloop in H. }
  split; [exact Hs|].
  intros Hft. unfold process_events. rewrite Hloop. cbn [bind].
  pose proof (loop_good _ _ _ _ _ _ _ _ Hloop) as [Hwf _]. cbn [fst] in Hwf.
  rewrite (finalize_wf final_threshold st Hwf). cbn [bind].
  destruct (candidate_street st) as [cand|] eqn:Ek; [|now rewrite app_nil_r].
  destruct (eq_street (Some cand) (confirmed_street st)) eqn:Ec;
    [now rewrite app_nil_r|].
  apply eq_street_false in Ec. specialize (Hs Ec).
  rewrite (proj2 (Z.leb_gt _ _)) by lia. now rewrite app_nil_r.
Qed.

Lemma final_check_only_for_short_candidates_witness :
  process_events
    (answers [Some "Ash"; Some "Ash"; Some "Ash"; Some "Birch"; Some "Birch"]%string)
    1 3 3 [at_second 0; at_second 10; at_second 20; at_second 30; at_second 40]
  = Ok [(total_seconds 0, "Ash"%string)].
Proof.
  apply (proj2 (final_check_only_for_short_candidates
                  (answers [Some "Ash"; Some "Ash"; Some "Ash";
                            Some "Birch"; Some "Birch"]%string)
                  1 3 3 [at_second 0; at_second 10; at_second 20; at_second 30; at_second 40]
                  {| confirmed_street := Some "Ash"%string;
                     candidate_street := Some "Birch"%string;
                     candidate_times := [total_seconds 30000000; total_seconds 40000000] |}
                  [(total_seconds 0, "Ash"%string)] eq_refl)).
  simpl. lia.
Defined.

(** ** A track on one street *)

Section OneStreet.

Variable threshold : Z.
Variable A : string.
Hypothesis named_A : A <> EmptyString.

(** Once A is confirmed, further A labels print nothing. *)
Lemma confirmed_phase (rest : list (option string * Q)) :
  forall st out,
    confirmed_street st = Some A ->
    Forall (fun p => fst p = Some A) rest ->
    exists st',
      run threshold (st, out) rest = (st', out) /\
      confirmed_street st' = Some A /\
      (candidate_street st' = None \/ candidate_street st' = candidate_street st).
Proof.
  induction rest as [|[label t] rest IH]; intros st out Hc Hall.
  - exists st. auto.
  - inversion Hall as [|p l Hl Hrest]; subst. cbn [fst] in Hl. subst label.
    erewrite run_step by (now apply step_clear).
    rewrite app_nil_r.
    destruct (IH {| confirmed_street := Some A; candidate_street := None;
                    candidate_times := [] |} out eq_refl Hrest)
      as (st' & E & Hc' & Hk').
    exists st'. split; [exact E|]. split; [exact Hc'|].
    left. cbn [candidate_street] in Hk'. tauto.
Qed.

(** Hits that stay below the threshold only extend the hit list. *)
Lemma counting_phase (rest : list (option string * Q)) :
  forall ts,
    Forall (fun p => fst p = Some A) rest ->
    rest = [] \/ Z.of_nat (List.length ts + List.length rest) < threshold ->
    run threshold
        ({| confirmed_street := None; candidate_street := Some A;
            candidate_times := ts |}, []) rest
    = ({| confirmed_street := None; candidate_street := Some A;
          candidate_times := ts ++ map snd rest |}, []).
Proof.
  induction rest as [|[label t] rest IH]; intros ts Hall Hlt.
  - cbn. now rewrite app_nil_r.
  - inversion Hall as [|p l Hl Hrest]; subst. cbn [fst] in Hl. subst label.
    destruct Hlt as [Hlt|Hlt]; [discriminate|]. cbn [List.length] in Hlt.
    erewrite run_step by (apply step_count; cbn; (assumption || discriminate || reflexivity || lia)).
    cbn [confirmed_street candidate_street candidate_times app].
    rewrite IH; [|exact Hrest|].
    + cbn [map snd]. now rewrite <- app_assoc.
    + right. rewrite length_app. cbn [List.length]. lia.
Qed.

(** The hit that reaches the threshold prints the first hit. *)
Lemma confirming_phase (rest : list (option string * Q)) :
  forall ts,
    ts <> [] ->
    Forall (fun p => fst p = Some A) rest ->
    rest <> [] ->
    threshold <= Z.of_nat (List.length ts + List.length rest) ->
    exists st',
      run threshold
          ({| confirmed_street := None; candidate_street := Some A;
              candidate_times := ts |}, []) rest
      = (st', [(hd 0%Q ts, A)]) /\
      confirmed_street st' = Some A /\
      (candidate_street st' = None \/ candidate_street st' = Some A).
Proof.
  induction rest as [|[label t] rest IH]; intros ts Hts Hall Hne Hle.
  - now contradiction Hne.
  - inversion Hall as [|p l Hl Hrest]; subst. cbn [fst] in Hl. subst label.
    cbn [List.length] in Hle.
    destruct (Z_le_gt_dec threshold (Z.of_nat (List.length ts) + 1)) as [Hc|Hc].
    + erewrite run_step
        by (apply step_confirm; cbn; (assumption || discriminate || reflexivity || lia)).
      cbn [confirmed_street candidate_street candidate_times app].
      destruct (confirmed_phase rest
                  {| confirmed_street := Some A; candidate_street := Some A;
                     candidate_times := ts ++ [t] |}
                  [(hd t ts, A)] eq_refl Hrest) as (st' & E & Hc' & Hk').
      exists st'. replace (hd 0%Q ts) with (hd t ts) by now destruct ts.
      auto.
    + erewrite run_step
        by (apply step_count; cbn; (assumption || discriminate || reflexivity || lia)).
      cbn [confirmed_street candidate_street candidate_times app].
      destruct (IH (ts ++ [t])) as (st' & E & Hc' & Hk').
      * now destruct ts.
      * exact Hrest.
      * intros ->. cbn [List.length] in Hle. lia.
      * rewrite length_app. cbn [List.length]. lia.
      * exists st'. replace (hd 0%Q ts) with (hd 0%Q (ts ++ [t])) by now destruct ts.
        auto.
Qed.

End OneStreet.

(** When every retained sample is labelled with the same street, a run over
    [n] retained samples prints that street once, at the offset of the first
    of them, provided [n] reaches [max threshold 2] (confirmed in the loop)
    or the final threshold (confirmed by the final check); it prints nothing
    otherwise. *)
Theorem one_street_one_line
        (get_street_name : nat -> Q -> Q -> option string)
        (downsample threshold final_threshold : Z) (pts : list sample)
        (A : string) (t1 : Q) (rest : list (option string * Q)) :
  downsample <> 0 ->
  A <> EmptyString ->
  retained get_street_name downsample (first_time pts) 0 pts = (Some A, t1) :: rest ->
  Forall (fun p => fst p = Some A) rest ->
  process_events get_street_name downsample threshold final_threshold pts
  = Ok (if (Z.max threshold 2 <=? Z.of_nat (S (List.length rest)))
           || (final_threshold <=? Z.of_nat (S (List.length rest)))
        then [(t1, A)] else []).
Proof.
  intros Hd HA Hr Hall. unfold process_events.
  rewrite loop_run by assumption. rewrite Hr. unfold initial.
  erewrite run_step
    by (apply step_replace; cbn; (assumption || discriminate)).
  cbn [confirmed_street candidate_street candidate_times app bind].
  destruct (Z.max threshold 2 <=? Z.of_nat (S (List.length rest))) eqn:Em.
  - apply Z.leb_le in Em. cbn [orb].
    destruct (confirming_phase threshold A HA rest [t1]) as (st' & E & Hc & Hk).
    + discriminate.
    + exact Hall.
    + intros ->. cbn [List.length] in Em. lia.
    + cbn [List.length]. lia.
    + rewrite E. cbn [hd]. unfold finalize.
      destruct Hk as [Hk|Hk]; rewrite Hk; [reflexivity|].
      rewrite (proj2 (String.eqb_neq _ _) HA), Hc, eq_street_refl.
      reflexivity.
  - apply Z.leb_gt in Em. cbn [orb].
    rewrite (counting_phase threshold A HA rest [t1] Hall).
    + unfold finalize. cbn [confirmed_street candidate_street candidate_times].
      rewrite (proj2 (String.eqb_neq _ _) HA). cbn [eq_street negb andb].
      cbn [app List.length]. rewrite length_map.
      destruct (final_threshold <=? Z.of_nat (S (List.length rest))); reflexivity.
    + destruct rest as [|p rest']; [now left|right].
      cbn [List.length] in *. lia.
Qed.

Lemma one_street_one_line_witness :
  process_events (answers [Some "Ash"; Some "Ash"; Some "Ash"]%string) 1 3 2
                 [at_second 0; at_second 10; at_second 20]
  = Ok (if (Z.max 3 2 <=? Z.of_nat 3) || (2 <=? Z.of_nat 3)
        then [(total_seconds 0, "Ash"%string)] else []).
Proof.
  apply (one_street_one_line
           (answers [Some "Ash"; Some "Ash"; Some "Ash"]%string) 1 3 2
           [at_second 0; at_second 10; at_second 20] "Ash"%string (total_seconds 0)
           [(Some "Ash"%string, total_seconds 10000000);
            (Some "Ash"%string, total_seconds 20000000)]).
  - lia.
  - discriminate.
  - reflexivity.
  - repeat constructor.
Defined.

(** ** The formatter on any offset *)

Lemma format_time_delta_fields (n : Z) (d : positive) :
  format_time_delta (n # d)
  = (format_0d 2 (n / Z.pos d / 60) ++ ":" ++ two_digits ((n / Z.pos d) mod 60))%string.
Proof.
  unfold format_time_delta, float_floordiv. cbv zeta.
  rewrite int_of_float_inject, int_of_float_mod, Qfloor_div60.
  rewrite Z.div_div by lia.
  rewrite (format_0d_two_digits ((n / Z.pos d) mod 60)); [reflexivity|].
  apply Z.mod_pos_bound. lia.
Qed.


(** A negative offset, as a sample stamped before the start time gets,
    prints a minus sign and a negative minutes field, and its seconds field
    counts upwards from the minute below: one second before the start is
    [-1:59]. *)
Theorem format_time_delta_negative (seconds : Q) :
  (seconds < 0)%Q ->
  Qfloor seconds / 60 < 0 /\
  exists digits,
    format_time_delta seconds
    = (String "-" digits ++ ":" ++ two_digits (Qfloor seconds mod 60))%string /\
    (- 60 <= Qfloor seconds -> format_time_delta seconds
       = ("-1:" ++ two_digits (Qfloor seconds + 60))%string).
Proof.
  destruct seconds as [n d]. intros Hneg.
  unfold Qlt in Hneg. cbn [Qnum Qden] in Hneg.
  rewrite Qfloor_frac, format_time_delta_fields.
  assert (Hf : n / Z.pos d < 0) by (apply Z.div_lt_upper_bound; lia).
  assert (Hm : n / Z.pos d / 60 < 0) by (apply Z.div_lt_upper_bound; lia).
  split; [exact Hm|].
  unfold format_0d at 1. rewrite (proj2 (Z.ltb_lt _ _) Hm).
  eexists. split; [reflexivity|].
  intros Hge.
  assert (E : n / Z.pos d / 60 = -1).
  { apply Z.le_antisymm; [lia|]. apply Z.div_le_lower_bound; lia. }
  rewrite E.
  replace ((n / Z.pos d) mod 60) with (n / Z.pos d + 60).
  - reflexivity.
  - rewrite Z.mod_eq by lia. rewrite E. lia.
Qed.

Lemma format_time_delta_negative_witness :
  format_time_delta (-1) = "-1:59"%string.
Proof.
  destruct (format_time_delta_negative (-1) ltac:(reflexivity))
    as (_ & digits & _ & H).
  rewrite H; [reflexivity|]. cbn. lia.
Defined.

(** A run can print such a line: a sample stamped earlier than the first
    timestamp of the file has a negative offset. *)
Example negative_offset_printed :
  process_points (answers [Some "Ash"; Some "Birch"; Some "Birch"]%string) 1 2 2
                 [at_second 100; at_second 99; at_second 101]
  = Ok ["-1:59 Birch"%string].
Proof. reflexivity. Qed.

(** ** The collector and [main] *)

(** The collector returns the empty list exactly when no track and no
    route holds a point and there is no waypoint. *)
Theorem collect_points_empty_iff (gpx : GPX) :
  collect_points gpx = [] <->
  ~ any_track_point gpx /\ ~ any_route_point gpx /\ waypoints gpx = [].
Proof.
  rewrite any_track_point_iff, any_route_point_iff, collect_points_closed.
  unfold waypoint_samples.
  destruct (track_points gpx) as [|a ta], (route_points gpx) as [|b rb],
           (waypoints gpx) as [|w ws]; cbn [map]; split;
    try discriminate; try tauto;
    try (intros (H1 & H2 & H3); first [discriminate H3 | now contradiction H1
                                      | now contradiction H2]);
    intros (H1 & H2 & H3);
    first [ contradiction H1; discriminate | contradiction H2; discriminate ].
Qed.

Lemma collect_points_empty_iff_witness :
  collect_points
    {| tracks := [mkTrack [mkSegment []]; mkTrack []];
       routes := [mkRoute []];
       waypoints := [] |}
  = [].
Proof.
  apply collect_points_empty_iff. repeat split.
  - intros (track & segment & pt & Ht & Hs & Hp). cbn in Ht.
    destruct Ht as [<-|[<-|[]]]; cbn in Hs.
    + destruct Hs as [<-|[]]. destruct Hp.
    + destruct Hs.
  - intros (route & pt & Hr & Hp). cbn in Hr.
    destruct Hr as [<-|[]]. destruct Hp.
Defined.

(** ** The run with its pause and its diagnostics *)

Section TracedFacts.

Variable requests_get : nat -> Q -> Q -> reply.
Variable exception_text : nat -> Q -> Q -> string.
Variable sleep : Q -> option failure.
Variable fixed6 : Q -> string.
Variable downsample : Z.
Variable request_delay : Q.
Variables threshold final_threshold : Z.

(** Without the debug flag [get_street_name] prints nothing. *)
Lemma get_street_name_warning_quiet (i : nat) (lat lon : Q) :
  get_street_name_warning requests_get exception_text false i lat lon = [].
Proof.
  unfold get_street_name_warning.
  destruct (requests_get i lat lon) as [|status_code address]; [reflexivity|].
  now destruct (status_code =? 200).
Qed.

(** A zero stride raises at the first sample, before the pause. *)
Lemma traced_loop_zero_stride (debug_mode : bool) (start : option datetime)
      (i : nat) (p : sample) (rest : list sample) (st : state) (out : list string) :
  traced_loop requests_get exception_text sleep fixed6 0 request_delay threshold
              debug_mode start i (p :: rest) st out
  = (out, inr (Builtin ZeroDivisionError)).
Proof. destruct p as [[lat lon] t]. reflexivity. Qed.

(** What [time.sleep] raises is raised at the first sample. *)
Lemma traced_loop_sleep_raises (debug_mode : bool) (start : option datetime)
      (p : sample) (rest : list sample) (st : state) (out : list string)
      (f : failure) :
  downsample <> 0 ->
  sleep request_delay = Some f ->
  traced_loop requests_get exception_text sleep fixed6 downsample request_delay
              threshold debug_mode start 0 (p :: rest) st out
  = (out, inr f).
Proof.
  intros Hd Hs. destruct p as [[lat lon] t].
  cbn [traced_loop]. unfold py_mod.
  rewrite (proj2 (Z.eqb_neq _ _) Hd). cbn [Z.of_nat].
  rewrite Z.mod_0_l by assumption. cbn [Z.eqb negb].
  now rewrite Hs.
Qed.

(** When [time.sleep] returns, the loop ends in the state of the fold over
    the retained samples, with or without the debug flag. *)
Lemma traced_loop_state (debug_mode : bool) (start : option datetime)
      (pts : list sample) :
  downsample <> 0 ->
  sleep request_delay = None ->
  forall i st out evs,
    snd (traced_loop requests_get exception_text sleep fixed6 downsample
                     request_delay threshold debug_mode start i pts st out)
    = inl (fst (run threshold (st, evs)
                    (retained (get_street_name requests_get) downsample start i pts))).
Proof.
  intros Hd Hs. induction pts as [|[[lat lon] t] rest IH]; intros i st out evs.
  - reflexivity.
  - cbn [traced_loop retained]. unfold py_mod.
    rewrite (proj2 (Z.eqb_neq _ _) Hd).
    destruct (Z.of_nat i mod downsample =? 0); cbn [negb]; [|apply IH].
    rewrite Hs, body_step, run_cons. unfold run1. cbn [fst snd].
    destruct (step threshold st (get_street_name requests_get i lat lon)
                   (time_diff start t)) as [st' printed].
    apply IH.
Qed.

(** Without the debug flag, and when [time.sleep] returns, the loop prints
    the events of the fold over the retained samples, one line each. *)
Lemma traced_loop_quiet (start : option datetime) (pts : list sample) :
  downsample <> 0 ->
  sleep request_delay = None ->
  forall i st out evs,
    traced_loop requests_get exception_text sleep fixed6 downsample request_delay
                threshold false start i pts st (out ++ map render evs)
    = (out ++ map render
               (snd (run threshold (st, evs)
                         (retained (get_street_name requests_get) downsample
                                   start i pts))),
       inl (fst (run threshold (st, evs)
                     (retained (get_street_name requests_get) downsample
                               start i pts)))).
Proof.
  intros Hd Hs. induction pts as [|[[lat lon] t] rest IH]; intros i st out evs.
  - reflexivity.
  - cbn [traced_loop retained]. unfold py_mod.
    rewrite (proj2 (Z.eqb_neq _ _) Hd).
    destruct (Z.of_nat i mod downsample =? 0); cbn [negb]; [|apply IH].
    rewrite Hs, body_step, run_cons, get_street_name_warning_quiet.
    unfold run1, debug_point. cbn [fst snd app].
    destruct (step threshold st (get_street_name requests_get i lat lon)
                   (time_diff start t)) as [st' printed].
    rewrite app_nil_r, <- app_assoc, <- map_app.
    apply IH.
Qed.

Lemma traced_empty (debug_mode : bool) :
  traced_process_points requests_get exception_text sleep fixed6 downsample
                        request_delay threshold final_threshold debug_mode []
  = ([no_data], None).
Proof. reflexivity. Qed.

Lemma traced_zero_stride (debug_mode : bool) (p : sample) (rest : list sample) :
  traced_process_points requests_get exception_text sleep fixed6 0
                        request_delay threshold final_threshold debug_mode
                        (p :: rest)
  = ([], Some (Builtin ZeroDivisionError)).
Proof.
  unfold traced_process_points. cbn [nonempty negb].
  now rewrite traced_loop_zero_stride.
Qed.

Lemma traced_sleep_raises (debug_mode : bool) (p : sample) (rest : list sample)
      (f : failure) :
  downsample <> 0 ->
  sleep request_delay = Some f ->
  traced_process_points requests_get exception_text sleep fixed6 downsample
                        request_delay threshold final_threshold debug_mode
                        (p :: rest)
  = ([], Some f).
Proof.
  intros Hd Hs. unfold traced_process_points. cbn [nonempty negb].
  now rewrite (traced_loop_sleep_raises debug_mode _ p rest initial [] f Hd Hs).
Qed.

(** When [time.sleep] returns and the stride is not zero, the call
    returns, with or without the debug flag. *)
Lemma traced_returns (debug_mode : bool) (pts : list sample) :
  downsample <> 0 ->
  sleep request_delay = None ->
  snd (traced_process_points requests_get exception_text sleep fixed6 downsample
                             request_delay threshold final_threshold debug_mode
                             pts)
  = None.
Proof.
  intros Hd Hs. unfold traced_process_points.
  destruct (nonempty pts); cbn [negb]; [|reflexivity].
  pose proof (traced_loop_state debug_mode (first_time pts) pts Hd Hs
                0%nat initial [] []) as Hst.
  pose proof (run_good threshold
                (retained (get_street_name requests_get) downsample
                          (first_time pts) 0 pts)) as [Hwf _].
  destruct (traced_loop _ _ _ _ _ _ _ _ _ _ _ _ _) as [out [st|f]];
    cbn [snd] in Hst; [|discriminate Hst].
  injection Hst as ->.
  now rewrite (finalize_wf final_threshold _ Hwf).
Qed.

(** Without the debug flag it prints the events of the run, one line
    each. *)
Lemma traced_quiet (pts : list sample) :
  pts <> [] ->
  downsample <> 0 ->
  sleep request_delay = None ->
  exists evs,
    process_events (get_street_name requests_get) downsample threshold
                   final_threshold pts
    = Ok evs /\
    traced_process_points requests_get exception_text sleep fixed6 downsample
                          request_delay threshold final_threshold false pts
    = (map render evs, None).
Proof.
  intros Hne Hd Hs.
  rewrite process_events_run by assumption.
  unfold traced_process_points.
  destruct pts as [|p rest]; [now contradiction Hne|]. cbn [nonempty negb].
  pose proof (traced_loop_quiet (first_time (p :: rest)) (p :: rest) Hd Hs
                0%nat initial [] []) as Hq.
  cbn [app map] in Hq. rewrite Hq.
  pose proof (run_good threshold
                (retained (get_street_name requests_get) downsample
                          (first_time (p :: rest)) 0 (p :: rest))) as [Hwf _].
  cbv zeta. rewrite (finalize_wf final_threshold _ Hwf). cbn [bind app].
  eexists. split; [reflexivity|]. now rewrite map_app.
Qed.

End TracedFacts.

(** X16: [process_points] with its pause.  On an empty list it prints its
    message and returns.  On any other list a zero stride raises
    [ZeroDivisionError] at the first sample, before the pause and before
    anything is printed; with another stride, whatever [time.sleep] raises
    on [request_delay] is raised at the first sample, before any request
    and before anything is printed.  When [time.sleep] returns on
    [request_delay] the call returns, with or without the debug flag, and
    without the flag it prints exactly one line per event of the run. *)
Theorem traced_process_points_cases
        (requests_get : nat -> Q -> Q -> reply)
        (exception_text : nat -> Q -> Q -> string)
        (sleep : Q -> option failure) (fixed6 : Q -> string)
        (downsample : Z) (request_delay : Q) (threshold final_threshold : Z)
        (debug_mode : bool) (pts : list sample) :
  (pts = [] ->
   traced_process_points requests_get exception_text sleep fixed6 downsample
                         request_delay threshold final_threshold debug_mode pts
   = ([no_data], None)) /\
  (pts <> [] -> downsample = 0 ->
   traced_process_points requests_get exception_text sleep fixed6 downsample
                         request_delay threshold final_threshold debug_mode pts
   = ([], Some (Builtin ZeroDivisionError))) /\
  (forall f, pts <> [] -> downsample <> 0 -> sleep request_delay = Some f ->
   traced_process_points requests_get exception_text sleep fixed6 downsample
                         request_delay threshold final_threshold debug_mode pts
   = ([], Some f)) /\
  (downsample <> 0 -> sleep request_delay = None ->
   snd (traced_process_points requests_get exception_text sleep fixed6 downsample
                              request_delay threshold final_threshold debug_mode
                              pts)
   = None) /\
  (pts <> [] -> downsample <> 0 -> sleep request_delay = None ->
   exists evs,
     process_events (get_street_name requests_get) downsample threshold
                    final_threshold pts
     = Ok evs /\
     traced_process_points requests_get exception_text sleep fixed6 downsample
                           request_delay threshold final_threshold false pts
     = (map render evs, None)).
Proof.
  split; [now intros ->|]. split; [|split; [|split]].
  - intros Hne ->. destruct pts as [|p rest]; [now contradiction Hne|].
    apply traced_zero_stride.
  - intros f Hne Hd Hs. destruct pts as [|p rest]; [now contradiction Hne|].
    now apply traced_sleep_raises.
  - apply traced_returns.
  - apply traced_quiet.
Qed.

Lemma traced_process_points_cases_witness :
  traced_process_points (fun _ _ _ => RequestException) (fun _ _ _ => "timed out"%string)
                        (fun seconds => if Qle_bool 0 seconds then None
                                        else Some ValueError)
                        (fun _ => "0.000000"%string)
                        5 (-1 # 2) 3 2 true [at_second 0]
  = ([], Some ValueError).
Proof.
  apply (proj1 (proj2 (proj2 (traced_process_points_cases
                                (fun _ _ _ => RequestException)
                                (fun _ _ _ => "timed out"%string)
                                (fun seconds => if Qle_bool 0 seconds then None
                                                else Some ValueError)
                                (fun _ => "0.000000"%string)
                                5 (-1 # 2) 3 2 true [at_second 0])))).
  - discriminate.
  - lia.
  - reflexivity.
Defined.

(** With the debug flag every request that fails and every processed
    point is reported between the events. *)
Example traced_debug_lines :
  traced_process_points
    (fun i _ _ => match i with
                  | O => RequestException
                  | S O => Response 503 None
                  | _ => Response 200 (Some [("road", "Elm")]%string)
                  end)
    (fun _ _ _ => "timed out"%string) (fun _ => None) (fun _ => "0.000000"%string)
    1 (1 # 2) 2 2 true
    [at_second 0; at_second 10; at_second 20; at_second 30]
  = (["WARNING: Nominatim request failed: timed out";
      "DEBUG: i=0, lat=0.000000, lon=0.000000, street=None";
      "WARNING: Nominatim returned status 503";
      "DEBUG: i=1, lat=0.000000, lon=0.000000, street=None";
      "DEBUG: i=2, lat=0.000000, lon=0.000000, street=Elm";
      "DEBUG: i=3, lat=0.000000, lon=0.000000, street=Elm";
      "00:20 Elm"]%string, None).
Proof. reflexivity. Qed.

(** ** [main] *)

(** X17: on a file without any point [main] prints the report of
    [debug_gpx_contents] (nothing without the debug flag), then its own
    message, and returns, whatever the other arguments: a zero stride, or a
    pause [time.sleep] refuses, which fail on any other file, are not even
    looked at, and the result does not depend on the service. *)
Theorem main_on_empty_file
        (requests_get : nat -> Q -> Q -> reply)
        (exception_text : nat -> Q -> Q -> string)
        (sleep : Q -> option failure) (fixed6 : Q -> string)
        (args : Namespace) (gpx : GPX) :
  ~ any_track_point gpx -> ~ any_route_point gpx -> waypoints gpx = [] ->
  main requests_get exception_text sleep fixed6 args gpx
  = (debug_gpx_contents gpx (args_debug args) ++ [main_no_data], None) /\
  (args_debug args = false ->
   main requests_get exception_text sleep fixed6 args gpx
   = ([main_no_data], None)).
Proof.
  intros Ht Hr Hw.
  assert (E : main requests_get exception_text sleep fixed6 args gpx
              = (debug_gpx_contents gpx (args_debug args) ++ [main_no_data], None)).
  { unfold main. cbv zeta.
    rewrite any_track_point_iff in Ht. rewrite any_route_point_iff in Hr.
    rewrite collect_points_closed. unfold waypoint_samples. rewrite Hw.
    destruct (track_points gpx); [|contradiction Ht; discriminate].
    destruct (route_points gpx); [|contradiction Hr; discriminate].
    reflexivity. }
  split; [exact E|]. intros Hq. rewrite E, Hq. reflexivity.
Qed.

Lemma main_on_empty_file_witness :
  main (fun _ _ _ => RequestException) (fun _ _ _ => "timed out"%string)
       (fun _ => Some ValueError) (fun _ => "0.000000"%string)
       {| args_downsample := 0; args_request_delay := -1; args_threshold := 3;
          args_final_threshold := 2; args_debug := true |}
       {| tracks := []; routes := [mkRoute []]; waypoints := [] |}
  = (["DEBUG: Number of tracks = 0";
      "DEBUG: Number of routes = 1";
      "DEBUG:   Route 0 has 0 point(s).";
      "DEBUG: Number of waypoints = 0";
      main_no_data]%string, None).
Proof.
  apply (proj1 (main_on_empty_file
                  (fun _ _ _ => RequestException) (fun _ _ _ => "timed out"%string)
                  (fun _ => Some ValueError) (fun _ => "0.000000"%string)
                  {| args_downsample := 0; args_request_delay := -1;
                     args_threshold := 3; args_final_threshold := 2;
                     args_debug := true |}
                  {| tracks := []; routes := [mkRoute []]; waypoints := [] |}
                  ltac:(intros (track & segment & pt & [] & _))
                  ltac:(intros (route & pt & Hr & Hp); cbn in Hr;
                        destruct Hr as [<-|[]]; destruct Hp)
                  ltac:(reflexivity))).
Defined.

(** X18: on a file with points [main] first prints the report of
    [debug_gpx_contents] (nothing without the debug flag), then what
    [process_points] prints on the points the collector chose.  A zero
    stride raises [ZeroDivisionError]; with another stride, whatever
    [time.sleep] raises on the pause is raised; both at the first sample,
    with nothing printed after the report.  When [time.sleep] returns on
    the pause [main] returns, with or without the debug flag, and without
    the flag it prints exactly one line per event of the run. *)
Theorem main_on_points
        (requests_get : nat -> Q -> Q -> reply)
        (exception_text : nat -> Q -> Q -> string)
        (sleep : Q -> option failure) (fixed6 : Q -> string)
        (args : Namespace) (gpx : GPX) :
  collect_points gpx <> [] ->
  (args_downsample args = 0 ->
   main requests_get exception_text sleep fixed6 args gpx
   = (debug_gpx_contents gpx (args_debug args),
      Some (Builtin ZeroDivisionError))) /\
  (forall f, args_downsample args <> 0 ->
   sleep (args_request_delay args) = Some f ->
   main requests_get exception_text sleep fixed6 args gpx
   = (debug_gpx_contents gpx (args_debug args), Some f)) /\
  (args_downsample args <> 0 -> sleep (args_request_delay args) = None ->
   main requests_get exception_text sleep fixed6 args gpx
   = (debug_gpx_contents gpx (args_debug args)
      ++ fst (traced_process_points requests_get exception_text sleep fixed6
                (args_downsample args) (args_request_delay args)
                (args_threshold args) (args_final_threshold args)
                (args_debug args) (collect_points gpx)),
      None) /\
   (args_debug args = false ->
    exists evs,
      process_events (get_street_name requests_get) (args_downsample args)
                     (args_threshold args) (args_final_threshold args)
                     (collect_points gpx)
      = Ok evs /\
      main requests_get exception_text sleep fixed6 args gpx
      = (map render evs, None))).
Proof.
  intros Hne. unfold main. cbv zeta.
  destruct (collect_points gpx) as [|p rest] eqn:Ec; [now contradiction Hne|].
  cbn [nonempty negb].
  split; [|split].
  - intros ->. rewrite traced_zero_stride. now rewrite app_nil_r.
  - intros f Hd Hs. rewrite (traced_sleep_raises _ _ _ _ _ _ _ _ _ _ _ f Hd Hs).
    now rewrite app_nil_r.
  - intros Hd Hs. split.
    + pose proof (traced_returns requests_get exception_text sleep fixed6
                    (args_downsample args) (args_request_delay args)
                    (args_threshold args) (args_final_threshold args)
                    (args_debug args) (p :: rest) Hd Hs) as Hr.
      destruct (traced_process_points _ _ _ _ _ _ _ _ _ _) as [lines raised].
      cbn [snd] in Hr. cbn [fst]. now rewrite Hr.
    + intros Hq. rewrite Hq.
      destruct (traced_quiet requests_get exception_text sleep fixed6
                  (args_downsample args) (args_request_delay args)
                  (args_threshold args) (args_final_threshold args)
                  (p :: rest) ltac:(discriminate) Hd Hs) as (evs & E & Ht).
      exists evs. split; [exact E|]. now rewrite Ht.
Qed.

Lemma main_on_points_witness :
  exists evs,
    process_events
      (get_street_name (fun _ _ _ => Response 200 (Some [("road", "Elm")]%string)))
      1 2 2
      (collect_points
         {| tracks := [mkTrack [mkSegment [mkPoint 0 0 (Some 0);
                                           mkPoint 0 0 (Some 75000000)]]];
            routes := []; waypoints := [] |})
    = Ok evs /\
    main (fun _ _ _ => Response 200 (Some [("road", "Elm")]%string))
         (fun _ _ _ => "timed out"%string)
         (fun seconds => if Qle_bool 0 seconds then None else Some ValueError)
         (fun _ => "0.000000"%string)
         {| args_downsample := 1; args_request_delay := 1 # 2; args_threshold := 2;
            args_final_threshold := 2; args_debug := false |}
         {| tracks := [mkTrack [mkSegment [mkPoint 0 0 (Some 0);
                                           mkPoint 0 0 (Some 75000000)]]];
            routes := []; waypoints := [] |}
    = (map render evs, None).
Proof.
  apply (proj2 (proj2 (proj2 (main_on_points
                         (fun _ _ _ => Response 200 (Some [("road", "Elm")]%string))
                         (fun _ _ _ => "timed out"%string)
                         (fun seconds => if Qle_bool 0 seconds then None
                                         else Some ValueError)
                         (fun _ => "0.000000"%string)
                         {| args_downsample := 1; args_request_delay := 1 # 2;
                            args_threshold := 2; args_final_threshold := 2;
                            args_debug := false |}
                         {| tracks := [mkTrack [mkSegment [mkPoint 0 0 (Some 0);
                                                           mkPoint 0 0 (Some 75000000)]]];
                            routes := []; waypoints := [] |}
                         ltac:(discriminate)))
                      ltac:(cbn; lia) ltac:(reflexivity))).
  reflexivity.
Defined.

(** A whole run: two points on Elm, 75 seconds apart, print one line;
    with the debug flag the report and the processed points come first. *)
Example main_prints_elm :
  main (fun _ _ _ => Response 200 (Some [("road", "Elm")]%string))
       (fun _ _ _ => "timed out"%string) (fun _ => None) (fun _ => "0.000000"%string)
       {| args_downsample := 1; args_request_delay := 1 # 2; args_threshold := 2;
          args_final_threshold := 2; args_debug := false |}
       {| tracks := [mkTrack [mkSegment [mkPoint 0 0 (Some 0);
                                         mkPoint 0 0 (Some 75000000)]]];
          routes := []; waypoints := [] |}
  = (["00:00 Elm"%string], None).
Proof. reflexivity. Qed.

Example main_prints_elm_debug :
  main (fun _ _ _ => Response 200 (Some [("road", "Elm")]%string))
       (fun _ _ _ => "timed out"%string) (fun _ => None) (fun _ => "0.000000"%string)
       {| args_downsample := 1; args_request_delay := 1 # 2; args_threshold := 2;
          args_final_threshold := 2; args_debug := true |}
       {| tracks := [mkTrack [mkSegment [mkPoint 0 0 (Some 0);
                                         mkPoint 0 0 (Some 75000000)]]];
          routes := []; waypoints := [] |}
  = (["DEBUG: Number of tracks = 1";
      "DEBUG:   Track 0 has 1 segment(s).";
      "DEBUG:     Segment 0 has 2 point(s).";
      "DEBUG: Number of routes = 0";
      "DEBUG: Number of waypoints = 0";
      "DEBUG: i=0, lat=0.000000, lon=0.000000, street=Elm";
      "DEBUG: i=1, lat=0.000000, lon=0.000000, street=Elm";
      "00:00 Elm"]%string, None).
Proof. reflexivity. Qed.

(** ** The diagnostic report *)

Lemma enumerate_length {A : Type} (l : list A) :
  List.length (enumerate l) = List.length l.
Proof.
  unfold enumerate. rewrite length_combine, length_seq. apply Nat.min_id.
Qed.

Lemma flat_map_indexed_length {A B : Type} (f : nat * A -> list B) (g : A -> nat)
      (l : list A) :
  (forall i a, List.length (f (i, a)) = g a) ->
  forall k,
    List.length (flat_map f (combine (seq k (List.length l)) l))
    = list_sum (map g l).
Proof.
  intros H. induction l as [|a l IH]; intros k; [reflexivity|].
  cbn [List.length seq combine flat_map map].
  change (list_sum (g a :: map g l)) with (g a + list_sum (map g l))%nat.
  now rewrite length_app, H, IH.
Qed.

(** Without the debug flag the report is empty.  With it the report has
    one line for the tracks, one per track, one per segment, one for the
    routes, one per route and one for the waypoints, so it is never empty. *)
Theorem debug_gpx_contents_lines (gpx : GPX) :
  debug_gpx_contents gpx false = [] /\
  List.length (debug_gpx_contents gpx true)
  = (3 + List.length (tracks gpx)
     + list_sum (map (fun track => List.length (segments track)) (tracks gpx))
     + List.length (routes gpx))%nat.
Proof.
  split; [reflexivity|].
  unfold debug_gpx_contents. cbn [negb].
  rewrite !length_app, length_map, enumerate_length. cbn [List.length].
  unfold enumerate.
  rewrite (flat_map_indexed_length _
             (fun track => S (List.length (segments track)))).
  - assert (E : forall l : list GPXTrack,
               list_sum (map (fun track => S (List.length (segments track))) l)
               = (List.length l
                  + list_sum (map (fun track => List.length (segments track)) l))%nat).
    { induction l as [|a l IH]; [reflexivity|].
      cbn [map List.length].
      change (list_sum (S (List.length (segments a))
                        :: map (fun track => S (List.length (segments track))) l))
        with (S (List.length (segments a))
              + list_sum (map (fun track => S (List.length (segments track))) l))%nat.
      change (list_sum (List.length (segments a)
                        :: map (fun track => List.length (segments track)) l))
        with (List.length (segments a)
              + list_sum (map (fun track => List.length (segments track)) l))%nat.
      rewrite IH. lia. }
    rewrite E. lia.
  - intros i a. cbn [List.length fst snd].
    now rewrite length_map, length_combine, length_seq, Nat.min_id.
Qed.

(** ** Chronological files *)

(** Non-decreasing offsets of the retained samples give non-decreasing
    offsets of the printed lines. *)
Lemma process_events_sorted
      (get_street_name : nat -> Q -> Q -> option string)
      (downsample threshold final_threshold : Z) (pts : list sample) :
  downsample <> 0 ->
  StronglySorted Qle
    (map snd (retained get_street_name downsample (first_time pts) 0 pts)) ->
  exists evs,
    process_events get_street_name downsample threshold final_threshold pts = Ok evs /\
    StronglySorted Qle (map fst evs) /\
    (forall e, In e evs ->
       In (Some (snd e), fst e)
          (retained get_street_name downsample (first_time pts) 0 pts)).
Proof.
  intros Hd Hs. unfold process_events. rewrite loop_run by assumption. cbn [bind].
  pose proof (run_good threshold
                (retained get_street_name downsample (first_time pts) 0 pts))
    as [Hwf _].
  pose proof (run_ordered_initial threshold _ Hs) as (_ & Ho & Hrel).
  pose proof (run_from_seen_initial threshold _ _ (incl_refl
                (retained get_street_name downsample (first_time pts) 0 pts)))
    as [Hout Hts].
  destruct (run threshold (initial, []) _) as [st out]. cbn [fst snd] in *.
  rewrite (finalize_wf final_threshold st Hwf). cbn [bind].
  eexists. split; [reflexivity|].
  destruct (candidate_street st) as [cand|] eqn:Ek;
    [|rewrite app_nil_r; auto].
  destruct (eq_street (Some cand) (confirmed_street st));
    [rewrite app_nil_r; auto|].
  destruct (final_threshold <=? _); [|rewrite app_nil_r; auto].
  destruct Hwf as (_ & _ & _ & Hne).
  destruct (candidate_times st) as [|t0 rest] eqn:Et.
  { specialize (Hne eq_refl). congruence. }
  cbn [hd]. split.
  - rewrite map_app. cbn [map fst]. apply sorted_snoc; [exact Ho|].
    rewrite Forall_map. eapply Forall_impl; [|exact Hrel].
    intros e He. now inversion He.
  - intros e He. apply in_app_or in He. destruct He as [He|[<-|[]]].
    + now apply Hout.
    + cbn [fst snd]. apply Hts. now left.
Qed.

(** On a file whose samples all carry a timestamp, in chronological order,
    the run returns, its lines are in non-decreasing order of offset, and no
    offset is negative. *)
Theorem chronological_file_prints_in_order
        (get_street_name : nat -> Q -> Q -> option string)
        (downsample threshold final_threshold : Z)
        (pts : list sample) (times : list datetime) :
  downsample <> 0 ->
  map (fun s : sample => snd s) pts = map Some times ->
  StronglySorted Z.le times ->
  exists evs,
    process_events get_street_name downsample threshold final_threshold pts = Ok evs /\
    Sorted Qle (map fst evs) /\
    Forall (fun e : event => (0 <= fst e)%Q) evs.
Proof.
  intros Hd Hm Hs.
  destruct pts as [|[[lat lon] t] rest].
  { exists []. repeat split; constructor. }
  destruct times as [|t1 times]; [discriminate|].
  cbn [map snd] in Hm. injection Hm as -> Hm.
  assert (Hstart : first_time ((lat, lon, Some t1) :: rest) = Some t1) by reflexivity.
  destruct (process_events_sorted get_street_name downsample threshold
              final_threshold ((lat, lon, Some t1) :: rest) Hd)
    as (evs & E & Hsorted & Hfrom).
  { rewrite Hstart.
    apply (chronological_offsets get_street_name downsample t1
             ((lat, lon, Some t1) :: rest) 0 (t1 :: times)); [|exact Hs].
    cbn [map snd]. now rewrite Hm. }
  exists evs. split; [exact E|]. split; [now apply StronglySorted_Sorted|].
  apply Forall_forall. intros e He. specialize (Hfrom e He).
  rewrite Hstart in Hfrom.
  destruct (retained_sound _ _ _ _ _ _ _ Hfrom)
    as (k & lat' & lon' & t' & Hn & _ & _ & ->).
  apply nth_error_In in Hn.
  apply (in_map (fun s : sample => snd s)) in Hn. cbn [snd map] in Hn.
  rewrite Hm in Hn.
  inversion Hs as [|a l Hs' Hall]; subst.
  destruct Hn as [<-|Hn].
  - unfold time_diff, total_seconds, Qle. cbn [Qnum Qden]. lia.
  - apply in_map_iff in Hn. destruct Hn as (x & <- & Hx).
    rewrite Forall_forall in Hall. specialize (Hall x Hx).
    unfold time_diff, total_seconds, Qle. cbn [Qnum Qden]. lia.
Qed.

Lemma chronological_file_prints_in_order_witness :
  exists evs,
    process_events
      (answers [Some "Ash"; Some "Ash"; Some "Birch"; Some "Birch"]%string) 1 2 2
      [at_second 0; at_second 10; at_second 10; at_second 30]
    = Ok evs /\
    Sorted Qle (map fst evs) /\
    Forall (fun e : event => (0 <= fst e)%Q) evs.
Proof.
  apply (chronological_file_prints_in_order
           (answers [Some "Ash"; Some "Ash"; Some "Birch"; Some "Birch"]%string) 1 2 2
           [at_second 0; at_second 10; at_second 10; at_second 30]
           [0; 10000000; 10000000; 30000000]).
  - lia.
  - reflexivity.
  - repeat constructor; lia.
Defined.
